(** * tee_client.py: the TEE worker polling client

    A shallow embedding of [src/tee_client.py] and the properties of its
    request sequence, its signature clean-up, its configuration parsing,
    its per-endpoint counters and its summary.

    Python values are modelled as the script uses them: a [str] is a list of
    Unicode code points, an [int] is a [Z], a [float] is an IEEE 754 binary64
    value ([spec_float] at precision 53), an exception is a constructor of
    [exn], and a call that may raise returns an [outcome]. *)

From Stdlib Require Import String Ascii.
From Stdlib Require Import ZArith NArith List Bool Lia DecimalString.
From Stdlib Require Import Floats.SpecFloat.
Import ListNotations.

Local Open Scope Z_scope.

(** ** Python strings *)

Module PyStr.

(** A Python [str]: a sequence of code points. *)
Definition char := N.
Definition str := list char.

(** A literal of the source, written as a Rocq string of ASCII characters. *)
Definition lit (s : string) : str := map N_of_ascii (list_ascii_of_string s).

Definition quote : char := 34%N.      (* the double quote *)
Definition backslash : char := 92%N.  (* the backslash *)
Definition space : char := 32%N.      (* the space, U+0020 *)
Definition comma : char := 44%N.      (* the comma *)

Definition eqb (a b : str) : bool :=
  if list_eq_dec N.eq_dec a b then true else false.

(** [s.startswith(c)] and [s.endswith(c)] for a one-character [c]. *)
Definition startswith (c : char) (s : str) : bool :=
  match s with
  | [] => false
  | x :: _ => N.eqb x c
  end.

Definition endswith (c : char) (s : str) : bool :=
  match rev s with
  | [] => false
  | x :: _ => N.eqb x c
  end.

(** One slice bound of [s[i:j]]: a negative bound counts from the end, and
    every bound is clamped to [0 .. len(s)]. *)
Definition clamp (len i : Z) : Z :=
  if i <? 0 then Z.max 0 (i + len) else Z.min i len.

(** [s[start:stop]] with step 1. *)
Definition slice (start stop : Z) (s : str) : str :=
  let len := Z.of_nat (length s) in
  let lo := clamp len start in
  let hi := clamp len stop in
  firstn (Z.to_nat (hi - lo)) (skipn (Z.to_nat lo) s).

(** [s.replace(c, new)] for a one-character [c]. *)
Definition replace (c : char) (new : str) (s : str) : str :=
  flat_map (fun x => if N.eqb x c then new else [x]) s.

(** [str.isspace] on one code point: the code points Python treats as
    whitespace. *)
Definition isspace (c : char) : bool :=
  ((9 <=? c) && (c <=? 13) || (28 <=? c) && (c <=? 32)
   || (c =? 133) || (c =? 160) || (c =? 5760)
   || (8192 <=? c) && (c <=? 8202)
   || (c =? 8232) || (c =? 8233) || (c =? 8239) || (c =? 8287)
   || (c =? 12288))%N.

Fixpoint lstrip (s : str) : str :=
  match s with
  | [] => []
  | x :: t => if isspace x then lstrip t else s
  end.

(** [s.strip()]. *)
Definition strip (s : str) : str := rev (lstrip (rev (lstrip s))).

(** [s.split(c)] for a one-character separator: the pieces between the
    occurrences of [c]; one more piece than there are separators. *)
Fixpoint split (c : char) (s : str) : list str :=
  match s with
  | [] => [[]]
  | x :: t =>
      if N.eqb x c then [] :: split c t
      else match split c t with
           | [] => [[x]]
           | p :: ps => (x :: p) :: ps
           end
  end.

(** Truth value of a [str]: non-empty. *)
Definition truthy (s : str) : bool :=
  match s with [] => false | _ => true end.

End PyStr.

Import PyStr.

(** ** Python values, exceptions and outcomes *)

#[local] Set Warnings "-register-all".

(** The values the script handles: what [response.json()] can return, and
    [None]. A [dict] keeps its items in insertion order, one item per key. *)
Inductive pyval :=
| PyNone
| PyBool (b : bool)
| PyInt (z : Z)
| PyFloat (f : spec_float)
| PyStr (s : str)
| PyList (l : list pyval)
| PyDict (d : list (str * pyval)).

(** The truth value [if v:] tests. *)
Definition truth (v : pyval) : bool :=
  match v with
  | PyNone => false
  | PyBool b => b
  | PyInt z => negb (z =? 0)
  | PyFloat f => match f with S754_zero _ => false | _ => true end
  | PyStr s => truthy s
  | PyList l => match l with [] => false | _ => true end
  | PyDict d => match d with [] => false | _ => true end
  end.

(** [d.get(key)] on the items of a [dict]: the value at [key], or [None]. *)
Fixpoint dict_get (key : str) (d : list (str * pyval)) : pyval :=
  match d with
  | [] => PyNone
  | (k, v) :: rest => if PyStr.eqb k key then v else dict_get key rest
  end.

(** The exceptions that occur in the script. All are subclasses of
    [Exception] but the last two, which derive from [BaseException] only. *)
Inductive exn :=
| TransportError                    (* httpx: the request could not be made *)
| HTTPStatusError (status_code : Z) (* response.raise_for_status() *)
| UnicodeDecodeError                (* response.content.decode *)
| JSONDecodeError                   (* response.json() *)
| AttributeError                    (* .get on a value that is not a dict *)
| KeyError (key : str)              (* telemetry_results[ip] *)
| ZeroDivisionError
| OverflowError
| KeyboardInterrupt
| CancelledError.

Definition is_Exception (e : exn) : bool :=
  match e with
  | KeyboardInterrupt | CancelledError => false
  | _ => true
  end.

(** The result of a call: it returns a value or raises. *)
Inductive outcome (A : Type) :=
| Return (a : A)
| Raise (e : exn).
Arguments Return {A} a.
Arguments Raise {A} e.

Definition bind {A B} (m : outcome A) (k : A -> outcome B) : outcome B :=
  match m with
  | Return a => k a
  | Raise e => Raise e
  end.

Notation "x <- m ;; k" := (bind m (fun x => k))
  (at level 61, m at next level, right associativity).

(** [try: body  except Exception as e: handler]. *)
Definition try_except_Exception {A} (body : outcome A) (handler : exn -> outcome A)
  : outcome A :=
  match body with
  | Return a => Return a
  | Raise e => if is_Exception e then handler e else Raise e
  end.

(** ** The remote worker, as the client observes it *)

Inductive http_method := GET | POST.

(** The address of a request: the f-string of the source, kept in its three
    parts; the last part is the value formatted into the path, if any. *)
Record url := Url { url_base : str; url_path : str; url_arg : option pyval }.

Record request := Request {
  req_method : http_method;
  req_url : url;
  req_headers : list (str * str);
  req_json : option pyval
}.

(** What the client reads of an [httpx.Response]: the status code, the body
    as UTF-8 text ([None] for a body that is not UTF-8) and the body as JSON
    ([None] for a body that is not JSON). *)
Record response := Response {
  status_code : Z;
  content_utf8 : option str;
  content_json : option pyval
}.

(** [response.content.decode] with the utf-8 codec. *)
Definition decoded_content (r : response) : outcome str :=
  match content_utf8 r with
  | Some text => Return text
  | None => Raise UnicodeDecodeError
  end.

(** [response.json()]. *)
Definition json (r : response) : outcome pyval :=
  match content_json r with
  | Some v => Return v
  | None => Raise JSONDecodeError
  end.

(** A request is answered, or fails in transport. *)
Inductive http_result :=
| Answered (r : response)
| Failed.

(** The worker behind one endpoint during one sequence. *)
Definition worker := request -> http_result.

(** [await client.post(...)] and [await client.get(...)]. *)
Definition send (w : worker) (rq : request) : outcome response :=
  match w rq with
  | Answered r => Return r
  | Failed => Raise TransportError
  end.

(** [response.raise_for_status()]: raises unless the status is a success
    (2xx). *)
Definition raise_for_status (r : response) : outcome unit :=
  if (200 <=? status_code r) && (status_code r <=? 299) then Return tt
  else Raise (HTTPStatusError (status_code r)).

(** [json_response.get(key)]: defined on a dict only. *)
Definition get (key : str) (v : pyval) : outcome pyval :=
  match v with
  | PyDict d => Return (dict_get key d)
  | _ => Raise AttributeError
  end.

Definition content_type_json : list (str * str) :=
  [(lit "Content-Type", lit "application/json")].

(** ** Signature clean-up *)

(** The two statements the source repeats wherever a signature is reused
    (lines 42 to 44, 69 to 71 and 73 to 75), as one function of the
    signature. *)
Definition sanitize (sig : str) : str :=
  let sig := if startswith quote sig && endswith quote sig
             then slice 1 (-1) sig else sig in
  let sig := replace backslash [] sig in
  sig.

(** The rule in the words of the specification: when the string starts and
    ends with a double quote, its first and its last character are removed;
    then every backslash is removed. *)
Definition without_backslashes (s : str) : str :=
  filter (fun c => negb (N.eqb c backslash)) s.

Definition sanitize_rule (s : str) : str :=
  match s with
  | first :: rest =>
      if N.eqb first quote && N.eqb (last s first) quote
      then without_backslashes (removelast rest)
      else without_backslashes s
  | [] => []
  end.

(** ** class SimpleTelemetryClient *)

(** The methods of the class, each with the worker that answers its
    requests. The lines the methods log are left out: logging reads its
    arguments and raises nothing. *)
Record SimpleTelemetryClient := { tee_worker_address : str }.

Section Client.

Variable self : SimpleTelemetryClient.
Variable w : worker.

(** The job description [generate_twitter_job] posts. *)
Definition twitter_job : pyval :=
  PyDict [(lit "type", PyStr (lit "twitter-scraper"));
          (lit "arguments",
           PyDict [(lit "max_results", PyInt 22);
                   (lit "query", PyStr (lit "#AI trending"));
                   (lit "type", PyStr (lit "searchbyquery"))])].

Definition generate_request : request :=
  Request POST (Url (tee_worker_address self) (lit "/job/generate") None)
          content_type_json (Some twitter_job).

Definition generate_twitter_job : outcome str :=
  response <- send w generate_request ;;
  _ <- raise_for_status response ;;
  signature <- decoded_content response ;;
  Return signature.

Definition add_request (sig : str) : request :=
  Request POST (Url (tee_worker_address self) (lit "/job/add") None)
          content_type_json (Some (PyDict [(lit "encrypted_job", PyStr sig)])).

Definition add_job (sig : str) : outcome pyval :=
  let sig := if startswith quote sig && endswith quote sig
             then slice 1 (-1) sig else sig in
  let sig := replace backslash [] sig in
  response <- send w (add_request sig) ;;
  _ <- raise_for_status response ;;
  json_response <- json response ;;
  get (lit "uid") json_response.

Definition status_request (job_uuid : pyval) : request :=
  Request GET (Url (tee_worker_address self) (lit "/job/status/") (Some job_uuid))
          [] None.

Definition check_job (job_uuid : pyval) : outcome str :=
  response <- send w (status_request job_uuid) ;;
  _ <- raise_for_status response ;;
  signature <- decoded_content response ;;
  Return signature.

Definition result_request (result_sig sig : str) : request :=
  Request POST (Url (tee_worker_address self) (lit "/job/result") None)
          content_type_json
          (Some (PyDict [(lit "encrypted_result", PyStr result_sig);
                         (lit "encrypted_request", PyStr sig)])).

Definition return_job_result (sig result_sig : str) : outcome pyval :=
  let result_sig := if startswith quote result_sig && endswith quote result_sig
                    then slice 1 (-1) result_sig else result_sig in
  let result_sig := replace backslash [] result_sig in
  let sig := if startswith quote sig && endswith quote sig
             then slice 1 (-1) sig else sig in
  let sig := replace backslash [] sig in
  response <- send w (result_request result_sig sig) ;;
  _ <- raise_for_status response ;;
  json response.

(** The four calls in order; the first that raises ends the chain. *)
Definition twitter_sequence_body : outcome pyval :=
  sig <- generate_twitter_job ;;
  job_uuid <- add_job sig ;;
  status_sig <- check_job job_uuid ;;
  result <- return_job_result sig status_sig ;;
  Return result.

Definition execute_twitter_sequence : outcome pyval :=
  try_except_Exception twitter_sequence_body (fun e => Return PyNone).

End Client.

(** ** The per-endpoint counters *)

(** The inner dict of [telemetry_results]: its three keys are fixed when it
    is created. *)
Record stats := Stats {
  twitter_sequences : Z;
  successful : Z;
  failed : Z
}.

(** [telemetry_results]: a dict from endpoint to counters, in insertion
    order, one item per key. Every coroutine of a run shares the one dict. *)
Definition telemetry := list (str * stats).

Fixpoint lookup (ip : str) (t : telemetry) : option stats :=
  match t with
  | [] => None
  | (k, st) :: rest => if PyStr.eqb k ip then Some st else lookup ip rest
  end.

(** [d[ip] = st]: the item of an existing key is replaced where it stands, a
    new key is appended. *)
Fixpoint store (ip : str) (st : stats) (t : telemetry) : telemetry :=
  match t with
  | [] => [(ip, st)]
  | (k, old) :: rest =>
      if PyStr.eqb k ip then (k, st) :: rest else (k, old) :: store ip st rest
  end.

(** Code that updates the shared dict and may raise: the dict keeps the
    updates made before an exception. *)
Definition action (A : Type) := telemetry -> outcome A * telemetry.

Definition act_bind {A B} (m : action A) (k : A -> action B) : action B :=
  fun t => match m t with
           | (Return a, t') => k a t'
           | (Raise e, t') => (Raise e, t')
           end.

Notation "x <~ m ;; k" := (act_bind m (fun x => k))
  (at level 61, m at next level, right associativity).

Definition act_lift {A} (m : outcome A) : action A := fun t => (m, t).

Definition act_try_except_Exception {A} (body : action A) (handler : exn -> action A)
  : action A :=
  fun t => match body t with
           | (Return a, t') => (Return a, t')
           | (Raise e, t') => if is_Exception e then handler e t' else (Raise e, t')
           end.

(** [telemetry_results[ip][field] += 1], for each of the three fields. *)
Definition bump (field : stats -> stats) (ip : str) : action unit :=
  fun t => match lookup ip t with
           | Some st => (Return tt, store ip (field st) t)
           | None => (Raise (KeyError ip), t)
           end.

Definition incr_twitter_sequences (st : stats) : stats :=
  Stats (twitter_sequences st + 1) (successful st) (failed st).
Definition incr_successful (st : stats) : stats :=
  Stats (twitter_sequences st) (successful st + 1) (failed st).
Definition incr_failed (st : stats) : stats :=
  Stats (twitter_sequences st) (successful st) (failed st + 1).

Definition execute_twitter_sequence_for_client
    (ip : str) (client : SimpleTelemetryClient) (w : worker) : action unit :=
  act_try_except_Exception
    (result <~ act_lift (execute_twitter_sequence client w) ;;
     _ <~ bump incr_twitter_sequences ip ;;
     if truth result then bump incr_successful ip
     else bump incr_failed ip)
    (fun e => bump incr_failed ip).

(** ** main: configuration *)

(** Lines 136 to 145 of the source: the endpoints read from the environment
    variable WORKER_URLS ([None] when it is not set). *)
Definition tee_worker_addresses (WORKER_URLS : option str) : list str :=
  let worker_urls_str :=
    replace space [] (match WORKER_URLS with Some v => v | None => [] end) in
  let worker_urls_str :=
    if startswith quote worker_urls_str && endswith quote worker_urls_str
    then slice 1 (-1) worker_urls_str else worker_urls_str in
  map strip (filter (fun url => truthy (strip url)) (split comma worker_urls_str)).

(** [{ip: {...zeros...} for ip in addresses}]. *)
Definition initial_telemetry (addresses : list str) : telemetry :=
  fold_left (fun t ip => store ip (Stats 0 0 0) t) addresses [].

(** [{ip: SimpleTelemetryClient(ip) for ip in addresses}], as its items. *)
Definition make_clients (addresses : list str) : list (str * SimpleTelemetryClient) :=
  fold_left
    (fun cs ip =>
       if existsb (fun c => PyStr.eqb (fst c) ip) cs then cs
       else cs ++ [(ip, Build_SimpleTelemetryClient ip)])
    addresses [].

(** ** main: the summary *)

(** Python's [float]: IEEE 754 binary64. *)
Module Float64.

Definition prec : Z := 53.
Definition emax : Z := 1024.

(** An [int] as the exact operand of a correctly rounded operation. *)
Definition of_int (z : Z) : spec_float :=
  match z with
  | Z0 => S754_zero false
  | Zpos p => S754_finite false p 0
  | Zneg p => S754_finite true p 0
  end.

Definition div : spec_float -> spec_float -> spec_float := SFdiv prec emax.
Definition mul : spec_float -> spec_float -> spec_float := SFmul prec emax.

(** The decimal digits of a natural number. *)
Definition digits (n : Z) : str :=
  lit (NilEmpty.string_of_uint (N.to_uint (Z.to_N n))).

(** [|m * 2^e| * 100] rounded to the nearest integer, ties to even. *)
Definition hundredths (m : positive) (e : Z) : Z :=
  let num := Zpos m * 100 in
  match e with
  | Zneg k =>
      let den := Z.pow_pos 2 k in
      let q := num / den in
      let r := num mod den in
      match 2 * r ?= den with
      | Lt => q
      | Gt => q + 1
      | Eq => if Z.even q then q else q + 1
      end
  | _ => num * 2 ^ e
  end.

Definition sign (s : bool) : str := if s then lit "-" else [].

(** [format(x, ".2f")]. *)
Definition format_2f (x : spec_float) : str :=
  match x with
  | S754_nan => lit "nan"
  | S754_infinity s => sign s ++ lit "inf"
  | S754_zero s => sign s ++ lit "0.00"
  | S754_finite s m e =>
      let h := hundredths m e in
      let cents := h mod 100 in
      sign s ++ digits (h / 100) ++ lit "."
           ++ (if cents <? 10 then lit "0" else []) ++ digits cents
  end.

End Float64.

(** [a / b] on two [int]s: the correctly rounded quotient. *)
Definition truediv (a b : Z) : outcome spec_float :=
  if b =? 0 then Raise ZeroDivisionError
  else match Float64.div (Float64.of_int a) (Float64.of_int b) with
       | S754_infinity _ => Raise OverflowError
       | q => Return q
       end.

(** The value of the variable [success_rate]: the [int] 0 it starts with, or
    the [float] assigned to it. *)
Inductive number :=
| Int (z : Z)
| Float (f : spec_float).

(** Lines 193 to 195. *)
Definition success_rate (st : stats) : outcome number :=
  let success_rate := Int 0 in
  if twitter_sequences st >? 0 then
    q <- truediv (successful st) (twitter_sequences st) ;;
    Return (Float (Float64.mul q (Float64.of_int 100)))
  else Return success_rate.

(** [f"{success_rate:.2f}"]: an [int] is converted to [float] first. *)
Definition format_rate (x : number) : outcome str :=
  match x with
  | Int z => f <- truediv z 1 ;; Return (Float64.format_2f f)
  | Float f => Return (Float64.format_2f f)
  end.

(** The lines [main] and the script's entry point log. *)
Inductive log :=
| NoWorkerUrls                         (* line 148 *)
| UsingWorkerUrls (addresses : list str) (* line 151 *)
| LoopStarting                         (* line 164: press Ctrl+C to stop and view results *)
| RunningRound (sequence_count : Z)    (* line 171 *)
| LoopInterrupted                      (* line 188 *)
| SummaryHeader                        (* line 191 *)
| Node (ip : str)                      (* line 197 *)
| Attempted (n : Z)                    (* line 198 *)
| Successful (n : Z)                   (* line 199 *)
| FailedSequences (n : Z)              (* line 200 *)
| SuccessRate (percent : str)          (* line 201 *)
| ScriptInterrupted                    (* line 210 *).

(** Lines 192 to 201: the loop over [telemetry_results.items()]. *)
Fixpoint summary_items (t : telemetry) : list log * outcome unit :=
  match t with
  | [] => ([], Return tt)
  | (ip, st) :: rest =>
      match success_rate st with
      | Raise e => ([], Raise e)
      | Return rate =>
          let counts := [Node ip; Attempted (twitter_sequences st);
                         Successful (successful st); FailedSequences (failed st)] in
          match format_rate rate with
          | Raise e => (counts, Raise e)
          | Return percent =>
              let (logs, r) := summary_items rest in
              (counts ++ SuccessRate percent :: logs, r)
          end
      end
  end.

(** Lines 191 to 201. *)
Definition summary (t : telemetry) : list log * outcome unit :=
  let (logs, r) := summary_items t in (SummaryHeader :: logs, r).

(** ** main: the round loop and its interruption *)

(** [await asyncio.gather] of the tasks of a round: every task runs to its
    end; the first exception of a task, if any, is raised to the caller. The
    tasks of a round interleave only at their network calls and each updates
    the counters of its own endpoint, so they are run here one after the
    other. *)
Fixpoint gather (tasks : list (action unit)) : action unit :=
  match tasks with
  | [] => fun t => (Return tt, t)
  | task :: rest =>
      fun t =>
        let (r, t1) := task t in
        let (rs, t2) := gather rest t1 in
        (match r with Raise e => Raise e | Return _ => rs end, t2)
  end.

(** The workers of a run: one per round and endpoint. *)
Definition world := Z -> str -> worker.

(** Lines 174 to 179: one task per item of [clients]. *)
Definition round_tasks (clients : list (str * SimpleTelemetryClient))
    (ws : str -> worker) : list (action unit) :=
  map (fun c => execute_twitter_sequence_for_client (fst c) (snd c) (ws (fst c)))
      clients.

(** The loop of [main] never ends by itself: a run ends with Ctrl+C. The
    interpreter raises KeyboardInterrupt in whatever frame is executing when
    the signal is handled. *)
Inductive interrupt_point :=
| InMain
    (* main's own statements of the loop body are executing (lines 170 to
       179): the exception is raised in main's frame, inside its try *)
| AtGather (finished : str -> bool)
    (* main is suspended at line 182, the event loop or a task is executing;
       the tasks of the endpoints in [finished] have completed *)
| AtSleep
    (* main is suspended at line 185, the event loop is waiting *).

Record interruption := {
  rounds_before : nat;       (* rounds completed before the signal *)
  point : interrupt_point
}.

(** How the loop of lines 169 to 185 is left. *)
Inductive loop_exit :=
| RaisedInMain (e : exn)
    (* an exception raised in, or delivered to, main's frame *)
| RaisedInEventLoop (e : exn)
    (* an exception raised outside main's frame while main is suspended: it
       leaves [loop.run_until_complete] and main is not resumed *).

Fixpoint round_loop (rounds : nat) (p : interrupt_point) (W : world)
    (clients : list (str * SimpleTelemetryClient)) (sequence_count : Z)
    (t : telemetry) : list log * loop_exit * telemetry :=
  let sequence_count := sequence_count + 1 in
  match rounds with
  | S rounds' =>
      match gather (round_tasks clients (W sequence_count)) t with
      | (Raise e, t') => ([RunningRound sequence_count], RaisedInMain e, t')
      | (Return _, t') =>
          let '(logs, exit, t'') := round_loop rounds' p W clients sequence_count t' in
          (RunningRound sequence_count :: logs, exit, t'')
      end
  | O =>
      match p with
      | InMain =>
          ([RunningRound sequence_count], RaisedInMain KeyboardInterrupt, t)
      | AtGather finished =>
          let done := filter (fun c => finished (fst c)) clients in
          let (_, t') := gather (round_tasks done (W sequence_count)) t in
          ([RunningRound sequence_count], RaisedInEventLoop KeyboardInterrupt, t')
      | AtSleep =>
          match gather (round_tasks clients (W sequence_count)) t with
          | (Raise e, t') => ([RunningRound sequence_count], RaisedInMain e, t')
          | (Return _, t') =>
              ([RunningRound sequence_count], RaisedInEventLoop KeyboardInterrupt, t')
          end
      end
  end.

(** How the coroutine [main] ends. *)
Inductive main_end :=
| Returned
| Raised (e : exn)
| NotResumed (e : exn)   (* [e] left the event loop while main was suspended *).

Definition main (WORKER_URLS : option str) (W : world) (i : interruption)
  : list log * main_end * telemetry :=
  let addresses := tee_worker_addresses WORKER_URLS in
  match addresses with
  | [] => ([NoWorkerUrls], Returned, [])
  | _ =>
      let telemetry_results := initial_telemetry addresses in
      let clients := make_clients addresses in
      let '(logs, exit, t) :=
        round_loop (rounds_before i) (point i) W clients 0 telemetry_results in
      let logs := UsingWorkerUrls addresses :: LoopStarting :: logs in
      match exit with
      | RaisedInMain KeyboardInterrupt =>
          (* except KeyboardInterrupt, line 187, then the summary *)
          let (printed, r) := summary t in
          (logs ++ LoopInterrupted :: printed,
           match r with Return _ => Returned | Raise e => Raised e end, t)
      | RaisedInMain e => (logs, Raised e, t)
      | RaisedInEventLoop e => (logs, NotResumed e, t)
      end
  end.

(** Lines 204 to 212: what is logged, and whether [loop.close()] ran. *)
Definition script (WORKER_URLS : option str) (W : world) (i : interruption)
  : list log * bool :=
  let '(logs, e, _) := main WORKER_URLS W i in
  match e with
  | Returned => (logs, true)
  | Raised KeyboardInterrupt | NotResumed KeyboardInterrupt =>
      (logs ++ [ScriptInterrupted], true)
  | Raised _ | NotResumed _ => (logs, true)
  end.

(** ** The configuration format in the words of the specification *)

(** One pair of wrapping double quotes is removed if present, the string is
    split on commas, each entry is trimmed of surrounding whitespace and
    empty entries are discarded. *)
Definition endpoints_as_specified (config : str) : list str :=
  let unwrapped :=
    match config with
    | first :: rest =>
        if N.eqb first quote && N.eqb (last config first) quote
        then removelast rest else config
    | [] => []
    end in
  filter truthy (map strip (split comma unwrapped)).

(** A string is clean when it holds no backslash and is not wrapped in a
    pair of double quotes. *)
Definition clean (s : str) : bool :=
  forallb (fun c => negb (N.eqb c backslash)) s
  && negb (startswith quote s && endswith quote s).

(** Every exception a call can raise is an [Exception]. *)
Definition raises_only_Exception {A} (m : outcome A) : Prop :=
  forall e, m = Raise e -> is_Exception e = true.

(** ** Workers and clients used as examples *)

Definition path_is (rq : request) (path : string) : bool :=
  PyStr.eqb (url_path (req_url rq)) (lit path).

(** A JSON string, with its quotes. *)
Definition quoted (s : string) : str := [quote] ++ lit s ++ [quote].

(** The signature a worker hands out. *)
Definition quoted_signature : str := quoted "c2lnbmF0dXJl".

Definition answer_text (status : Z) (body : str) : http_result :=
  Answered (Response status (Some body) None).

Definition answer_json (status : Z) (body : str) (v : pyval) : http_result :=
  Answered (Response status (Some body) (Some v)).

Definition job_added : http_result :=
  answer_json 200 (lit "{" ++ quoted "uid" ++ lit ": " ++ quoted "job-1" ++ lit "}")
              (PyDict [(lit "uid", PyStr (lit "job-1"))]).

Definition status_ok_body : str :=
  lit "{" ++ quoted "status" ++ lit ": " ++ quoted "ok" ++ lit "}".

(** Every call succeeds and the result posted back is answered with an
    empty JSON object. *)
Definition worker_empty_result : worker :=
  fun rq =>
    if path_is rq "/job/generate" then answer_text 200 quoted_signature
    else if path_is rq "/job/add" then job_added
    else if path_is rq "/job/status/" then answer_text 200 quoted_signature
    else answer_json 200 (lit "{}") (PyDict []).

(** The submission is refused with status 500. *)
Definition worker_refusing_jobs : worker :=
  fun rq =>
    if path_is rq "/job/generate" then answer_text 200 quoted_signature
    else answer_text 500 (lit "internal error").

(** The submission is accepted, but the answer carries no job id. *)
Definition worker_without_uid : worker :=
  fun rq =>
    if path_is rq "/job/generate" then answer_text 200 quoted_signature
    else if path_is rq "/job/add"
    then answer_json 200 status_ok_body (PyDict [(lit "status", PyStr (lit "ok"))])
    else answer_text 404 (lit "not found").

Definition endpoint_a : str := lit "http://a:8080".
Definition client_a : SimpleTelemetryClient := {| tee_worker_address := endpoint_a |}.

(** ** Invariants of the counters *)

(** The dict has an item for the endpoint. *)
Definition known (t : telemetry) (ip : str) : Prop :=
  exists st, lookup ip t = Some st.

(** Counters that were only ever updated by the client wrapper: none is
    negative and every attempt is counted once, as a success or as a
    failure. *)
Definition consistent (st : stats) : Prop :=
  0 <= successful st /\ 0 <= failed st
  /\ twitter_sequences st = successful st + failed st.

Definition all_consistent (t : telemetry) : Prop :=
  Forall (fun item => consistent (snd item)) t.

(** A [float] that is a number and not an infinity. *)
Definition finite_or_zero (f : spec_float) : Prop :=
  match f with
  | S754_zero _ | S754_finite _ _ _ => True
  | _ => False
  end.

Definition is_RunningRound (l : log) : bool :=
  match l with RunningRound _ => true | _ => false end.

(** How the loop is left when the signal is handled at a given point. *)
Definition exit_at (p : interrupt_point) : loop_exit :=
  match p with
  | InMain => RaisedInMain KeyboardInterrupt
  | AtGather _ | AtSleep => RaisedInEventLoop KeyboardInterrupt
  end.

(** Every call succeeds and the result posted back is answered with a JSON
    object that has one item. *)
Definition worker_with_result : worker :=
  fun rq =>
    if path_is rq "/job/generate" then answer_text 200 quoted_signature
    else if path_is rq "/job/add" then job_added
    else if path_is rq "/job/status/" then answer_text 200 quoted_signature
    else answer_json 200 status_ok_body (PyDict [(lit "status", PyStr (lit "ok"))]).

(** The submission is answered with a JSON array. *)
Definition worker_answering_list : worker :=
  fun rq =>
    if path_is rq "/job/generate" then answer_text 200 quoted_signature
    else answer_json 200 (lit "[]") (PyList []).

(** As [worker_with_result], but any request to a path the client does not
    use is answered with status 404. *)
Definition worker_strict : worker :=
  fun rq =>
    if path_is rq "/job/generate" then answer_text 200 quoted_signature
    else if path_is rq "/job/add" then job_added
    else if path_is rq "/job/status/" then answer_text 200 quoted_signature
    else if path_is rq "/job/result"
    then answer_json 200 status_ok_body (PyDict [(lit "status", PyStr (lit "ok"))])
    else answer_text 404 (lit "not found").

(** ** The counters over a run *)

(** The counters after one more sequence that returned [result]. *)
Definition counted (st : stats) (result : pyval) : stats :=
  if truth result
  then Stats (twitter_sequences st + 1) (successful st + 1) (failed st)
  else Stats (twitter_sequences st + 1) (successful st) (failed st + 1).

(** The value the sequence of endpoint [ip] returns in round [k]. *)
Definition sequence_result (W : world) (k : Z) (ip : str) : pyval :=
  match execute_twitter_sequence (Build_SimpleTelemetryClient ip) (W k ip) with
  | Return v => v
  | Raise _ => PyNone
  end.

(** The counters of [ip] after the rounds [k + 1 .. k + m]. *)
Fixpoint after_rounds (W : world) (ip : str) (k : Z) (m : nat) (st : stats) : stats :=
  match m with
  | O => st
  | S m' => after_rounds W ip (k + 1) m' (counted st (sequence_result W (k + 1) ip))
  end.

(** How many of the rounds [k + 1 .. k + m] returned a true value for [ip]. *)
Fixpoint successes (W : world) (ip : str) (k : Z) (m : nat) : Z :=
  match m with
  | O => 0
  | S m' =>
      (if truth (sequence_result W (k + 1) ip) then 1 else 0)
      + successes W ip (k + 1) m'
  end.

(** Whether the task of [ip] finished in the round the signal fell in. *)
Definition last_round (p : interrupt_point) (ip : str) : nat :=
  match p with
  | InMain => 0
  | AtGather finished => if finished ip then 1 else 0
  | AtSleep => 1
  end.

(** The keys of a dict after [d[k] = ...]. *)
Definition add_key (k : str) (keys : list str) : list str :=
  if existsb (fun x => PyStr.eqb x k) keys then keys else keys ++ [k].

(** ** Runs used as examples *)

Definition endpoint_b : str := lit "http://b:8080".

(** The configuration of two endpoints. *)
Definition two_endpoints : option str := Some (endpoint_a ++ [comma] ++ endpoint_b).

(** Every worker answers every call. *)
Definition world_all_good : world := fun _ _ => worker_with_result.

(** The worker behind the second endpoint refuses every job. *)
Definition world_b_refuses : world :=
  fun _ ip => if PyStr.eqb ip endpoint_a then worker_with_result
              else worker_refusing_jobs.

(** ** The lines of a run *)

(** The text printed for the success rate of an endpoint. *)
Definition rate_text (st : stats) : str :=
  match (rate <- success_rate st ;; format_rate rate) with
  | Return percent => percent
  | Raise _ => []
  end.

(** The five lines of the summary for one endpoint. *)
Definition summary_block (item : str * stats) : list log :=
  [Node (fst item); Attempted (twitter_sequences (snd item));
   Successful (successful (snd item)); FailedSequences (failed (snd item));
   SuccessRate (rate_text (snd item))].

(** The lines that announce the rounds [k + 1 .. k + m]. *)
Fixpoint round_lines (k : Z) (m : nat) : list log :=
  match m with
  | O => []
  | S m' => RunningRound (k + 1) :: round_lines (k + 1) m'
  end.

(** ** Trimmed strings *)

(** A string that does not start with whitespace. *)
Definition starts_clean (s : str) : Prop :=
  match s with
  | [] => True
  | x :: _ => isspace x = false
  end.

(** * Properties *)

(** ** Strings *)

Lemma replace_empty_is_filter (c : char) (s : str) :
  replace c [] s = filter (fun x => negb (N.eqb x c)) s.
Proof.
  unfold replace.
  induction s as [|x t IH]; simpl; [reflexivity|].
  destruct (N.eqb x c); simpl; now rewrite IH.
Qed.

Lemma firstn_pred_length {A} (l : list A) :
  firstn (Nat.pred (List.length l)) l = removelast l.
Proof. symmetry. apply removelast_firstn_len. Qed.

(** [s[1:-1]] drops the first and the last character; of a string of one
    character nothing is left. *)
Lemma slice_1_m1 (s : str) : slice 1 (-1) s = removelast (tl s).
Proof.
  unfold slice, clamp.
  destruct s as [|x [|y t]]; try reflexivity.
  change (1 <? 0) with false. change (-1 <? 0) with true. cbv iota.
  set (l := y :: t).
  assert (Hlen : Z.of_nat (List.length (x :: l)) = Z.of_nat (List.length l) + 1)
    by (simpl List.length; lia).
  rewrite Hlen.
  assert (Hpos : 1 <= Z.of_nat (List.length l)) by (subst l; simpl List.length; lia).
  rewrite Z.min_l by lia. rewrite Z.max_r by lia.
  change (Z.to_nat 1) with 1%nat. simpl skipn. simpl tl.
  replace (Z.to_nat (-1 + (Z.of_nat (List.length l) + 1) - 1))
    with (Nat.pred (List.length l)) by lia.
  apply firstn_pred_length.
Qed.

Lemma endswith_last (c : char) (x : char) (t : str) :
  endswith c (x :: t) = N.eqb (last (x :: t) x) c.
Proof.
  unfold endswith.
  destruct (exists_last (l := x :: t)) as [l' [a E]]; [discriminate|].
  rewrite E, rev_app_distr, last_last. reflexivity.
Qed.

Lemma sanitize_is_rule (s : str) : sanitize s = sanitize_rule s.
Proof.
  unfold sanitize, sanitize_rule, without_backslashes.
  destruct s as [|x t]; [reflexivity|].
  rewrite endswith_last. simpl startswith.
  destruct (N.eqb x quote && N.eqb (last (x :: t) x) quote);
    rewrite ?slice_1_m1, replace_empty_is_filter; reflexivity.
Qed.

Lemma sanitize_cases (s : str) :
  sanitize s =
    if startswith quote s && endswith quote s
    then without_backslashes (removelast (tl s))
    else without_backslashes s.
Proof.
  unfold sanitize, without_backslashes.
  destruct (startswith quote s && endswith quote s);
    rewrite ?slice_1_m1, replace_empty_is_filter; reflexivity.
Qed.

Lemma sanitize_wrapped (t : str) :
  sanitize (quote :: t ++ [quote]) = without_backslashes t.
Proof.
  rewrite sanitize_cases, endswith_last.
  change (quote :: t ++ [quote]) with ((quote :: t) ++ [quote]).
  rewrite last_last.
  change (N.eqb quote quote) with true. cbv iota. simpl andb. cbv iota.
  simpl tl. f_equal. apply removelast_last.
Qed.

(** C3: wherever a signature is reused (the body posted by add_job, and
    each of the two signatures posted by return_job_result, independently)
    the string sent is the sanitized one, and for every string sanitization
    is the rule of the specification: a string that starts and ends with a
    double quote loses exactly its first and its last character, and then
    every backslash is removed wherever it stands; any other string keeps
    its quotes and loses its backslashes only. *)
Theorem sanitization_of_reused_signatures :
  forall (self : SimpleTelemetryClient) (w : worker) (sig result_sig s t : str),
    add_job self w sig =
      (response <- send w (add_request self (sanitize sig)) ;;
       _ <- raise_for_status response ;;
       json_response <- json response ;;
       get (lit "uid") json_response)
    /\ return_job_result self w sig result_sig =
      (response <- send w (result_request self (sanitize result_sig) (sanitize sig)) ;;
       _ <- raise_for_status response ;;
       json response)
    /\ sanitize s = sanitize_rule s
    /\ sanitize s =
         (if startswith quote s && endswith quote s
          then without_backslashes (removelast (tl s))
          else without_backslashes s)
    /\ sanitize (quote :: t ++ [quote]) = without_backslashes t
    /\ ~ In backslash (sanitize s).
Proof.
  intros self w sig result_sig s t.
  split; [reflexivity|]. split; [reflexivity|].
  split; [apply sanitize_is_rule|]. split; [apply sanitize_cases|].
  split; [apply sanitize_wrapped|].
  rewrite sanitize_cases.
  destruct (startswith quote s && endswith quote s);
    unfold without_backslashes; intros H; apply filter_In in H;
    destruct H as [_ H]; now rewrite N.eqb_refl in H.
Qed.

(** C10: sanitizing the string that consists of one double quote gives the
    empty string: the one character passes both the start test and the end
    test, and the slice that drops the first and the last character leaves
    nothing. *)
Theorem sanitize_single_quote :
  startswith quote [quote] = true
  /\ endswith quote [quote] = true
  /\ slice 1 (-1) [quote] = []
  /\ sanitize [quote] = [].
Proof. repeat split. Qed.

Lemma filter_all_true {A} (f : A -> bool) (l : list A) :
  forallb f l = true -> filter f l = l.
Proof.
  induction l as [|x t IH]; simpl; [reflexivity|].
  intros H. apply andb_prop in H. destruct H as [Hx Ht].
  rewrite Hx. now rewrite IH.
Qed.

Lemma sanitize_clean (s : str) : clean s = true -> sanitize s = s.
Proof.
  unfold clean. intros H. apply andb_prop in H. destruct H as [Hb Hq].
  rewrite sanitize_cases.
  apply negb_true_iff in Hq. rewrite Hq.
  now apply filter_all_true.
Qed.

(** C4, as the code has it: sanitization leaves clean input unchanged (a
    string without backslash that is not wrapped in double quotes is a fixed
    point, so applying it twice equals applying it once there), and it
    strips one pair of wrapping quotes: the quoted abc gives abc, a\b\c
    gives abc, and abc stays abc. *)
Theorem sanitize_fixes_clean_input :
  forall s : str,
    clean s = true ->
    (sanitize s = s /\ sanitize (sanitize s) = sanitize s)
    /\ sanitize (quote :: lit "abc" ++ [quote]) = lit "abc"
    /\ sanitize (lit "a\b\c") = lit "abc"
    /\ sanitize (lit "abc") = lit "abc".
Proof.
  intros s H. repeat split; try reflexivity.
  - now apply sanitize_clean.
  - now rewrite !(sanitize_clean s H).
Qed.

Lemma sanitize_fixes_clean_input_witness :
  clean (lit "abc") = true
  /\ sanitize (lit "abc") = lit "abc"
  /\ sanitize (sanitize (lit "abc")) = sanitize (lit "abc").
Proof.
  split; [reflexivity|].
  exact (proj1 (sanitize_fixes_clean_input (lit "abc") eq_refl)).
Defined.

(** C4 as stated fails: a string wrapped in two pairs of double quotes is in
    the image of sanitization (it is the sanitized form of the same string
    in three pairs), and sanitizing it once more changes it: on the image,
    applying twice is not applying once. *)
Lemma sanitize_not_idempotent_on_image :
  let y := [quote; quote] ++ lit "a" ++ [quote; quote] in
  (exists s, sanitize s = y)
  /\ sanitize y <> y
  /\ sanitize (sanitize y) <> sanitize y
  /\ ~ (forall x, (exists s, sanitize s = x) ->
                  sanitize (sanitize x) = sanitize x).
Proof.
  cbv zeta.
  assert (Him : exists s, sanitize s = [quote; quote] ++ lit "a" ++ [quote; quote]).
  { exists ([quote; quote; quote] ++ lit "a" ++ [quote; quote; quote]). reflexivity. }
  split; [exact Him|].
  split; [vm_compute; discriminate|].
  split; [vm_compute; discriminate|].
  intros H. specialize (H _ Him). vm_compute in H. discriminate.
Qed.

(** ** Configuration *)

Lemma In_firstn {A} (n : nat) (l : list A) (x : A) : In x (firstn n l) -> In x l.
Proof.
  intros H. rewrite <- (firstn_skipn n l). apply in_or_app. now left.
Qed.

Lemma In_skipn {A} (n : nat) (l : list A) (x : A) : In x (skipn n l) -> In x l.
Proof.
  intros H. rewrite <- (firstn_skipn n l). apply in_or_app. now right.
Qed.

Lemma In_slice (a b : Z) (s : str) (x : char) : In x (slice a b s) -> In x s.
Proof. unfold slice. intros H. eapply In_skipn, In_firstn, H. Qed.

Lemma In_lstrip (s : str) (x : char) : In x (lstrip s) -> In x s.
Proof.
  induction s as [|c t IH]; simpl; [tauto|].
  destruct (isspace c); [right; now apply IH | trivial].
Qed.

Lemma In_strip (s : str) (x : char) : In x (strip s) -> In x s.
Proof.
  unfold strip. intros H.
  apply In_lstrip. apply in_rev. apply In_lstrip. now apply in_rev in H.
Qed.

(** The pieces of a split hold characters of the string, and none is the
    separator. *)
Lemma In_split (c : char) (s p : str) (x : char) :
  In p (split c s) -> In x p -> In x s /\ x <> c.
Proof.
  revert p. induction s as [|y t IH]; simpl; intros p Hp Hx.
  - destruct Hp as [<-|[]]. destruct Hx.
  - destruct (N.eqb_spec y c) as [->|Hne].
    + destruct Hp as [<-|Hp]; [destruct Hx|].
      destruct (IH p Hp Hx). split; [now right | assumption].
    + destruct (split c t) as [|q qs] eqn:E.
      * destruct Hp as [<-|[]]. destruct Hx as [<-|[]]. split; [now left | assumption].
      * destruct Hp as [<-|Hp].
        -- destruct Hx as [<-|Hx]; [split; [now left | assumption]|].
           destruct (IH q (or_introl eq_refl) Hx). split; [now right | assumption].
        -- destruct (IH p (or_intror Hp) Hx). split; [now right | assumption].
Qed.

Lemma map_filter_strip (l : list str) :
  map strip (filter (fun url => truthy (strip url)) l) = filter truthy (map strip l).
Proof.
  induction l as [|u t IH]; simpl; [reflexivity|].
  destruct (truthy (strip u)); simpl; now rewrite IH.
Qed.

(** What [main] does after it has deleted the spaces is the format of the
    specification. *)
Lemma tee_worker_addresses_unfold (v : str) :
  tee_worker_addresses (Some v) =
    endpoints_as_specified (filter (fun c => negb (N.eqb c space)) v).
Proof.
  unfold tee_worker_addresses, endpoints_as_specified.
  rewrite replace_empty_is_filter, map_filter_strip.
  destruct (filter (fun c => negb (N.eqb c space)) v) as [|x t]; [reflexivity|].
  rewrite endswith_last. simpl startswith.
  destruct (N.eqb x quote && N.eqb (last (x :: t) x) quote);
    rewrite ?slice_1_m1; reflexivity.
Qed.

Lemma addresses_from_config (v : str) (url : str) (x : char) :
  In url (tee_worker_addresses (Some v)) -> In x url ->
  In x v /\ x <> space /\ x <> comma.
Proof.
  unfold tee_worker_addresses. intros Hurl Hx.
  apply in_map_iff in Hurl. destruct Hurl as [piece [<- Hpiece]].
  apply filter_In in Hpiece. destruct Hpiece as [Hpiece _].
  apply In_strip in Hx.
  destruct (In_split _ _ _ _ Hpiece Hx) as [Hin Hcomma].
  assert (Hv : In x (replace space [] v)).
  { destruct (startswith quote (replace space [] v) && endswith quote (replace space [] v));
      [eapply In_slice; eassumption | assumption]. }
  rewrite replace_empty_is_filter in Hv. apply filter_In in Hv.
  destruct Hv as [Hv Hsp]. repeat split; try assumption.
  intros ->. now rewrite N.eqb_refl in Hsp.
Qed.

(** C5 as stated fails: on an address with a space inside, the format of the
    specification keeps the space and [main] deletes it. *)
Lemma interior_space_is_not_preserved :
  tee_worker_addresses (Some (lit "http://my host:8080"))
    <> endpoints_as_specified (lit "http://my host:8080")
  /\ tee_worker_addresses (Some (lit "http://my host:8080")) = [lit "http://myhost:8080"]
  /\ endpoints_as_specified (lit "http://my host:8080") = [lit "http://my host:8080"].
Proof. split; [vm_compute; discriminate | split; reflexivity]. Qed.

(** C5, as the code has it: for every configuration string, the endpoint
    list is obtained by first deleting every space character of the string,
    then removing one pair of wrapping double quotes if present, splitting on
    commas, trimming each entry of surrounding whitespace and discarding
    empty entries; no entry of the list is empty; the two padded addresses
    of the example parse to the two addresses. *)
Theorem endpoints_parsed_after_deleting_spaces :
  forall config : str,
    tee_worker_addresses (Some config) =
      endpoints_as_specified (filter (fun c => negb (N.eqb c space)) config)
    /\ ~ In [] (tee_worker_addresses (Some config))
    /\ tee_worker_addresses (Some (lit "  http://a:8080 , http://b:8080 "))
       = [lit "http://a:8080"; lit "http://b:8080"].
Proof.
  intros config. split; [apply tee_worker_addresses_unfold|].
  split; [|reflexivity].
  rewrite tee_worker_addresses_unfold. unfold endpoints_as_specified.
  intros H. apply filter_In in H. destruct H as [_ H]. discriminate.
Qed.

(** C9: configuration parsing first deletes every space character, wherever
    it stands: parsing a string is parsing the string without its spaces,
    every character of a parsed address comes from the configuration and is
    neither a space nor a comma, an address written with a space inside is
    read without it, and a pair of quotes preceded and followed by spaces is
    still recognised as wrapping, because the quote test and the split see
    the string without spaces. *)
Theorem spaces_deleted_before_parsing :
  forall (config url : str) (x : char),
    tee_worker_addresses (Some config) =
      tee_worker_addresses (Some (filter (fun c => negb (N.eqb c space)) config))
    /\ (In url (tee_worker_addresses (Some config)) -> In x url ->
        In x config /\ x <> space /\ x <> comma)
    /\ tee_worker_addresses (Some (lit "http://a b:8080")) = [lit "http://ab:8080"]
    /\ tee_worker_addresses (Some (lit " " ++ [quote] ++ lit "a, b c" ++ [quote] ++ lit " "))
       = [lit "a"; lit "bc"].
Proof.
  intros config url x. split.
  - rewrite !tee_worker_addresses_unfold. f_equal.
    set (f := fun c => negb (N.eqb c space)).
    induction config as [|c t IH]; simpl; [reflexivity|].
    destruct (f c) eqn:E; simpl; rewrite ?E; now rewrite <- IH.
  - split; [apply addresses_from_config|]. split; reflexivity.
Qed.

Lemma spaces_deleted_before_parsing_witness :
  let config := lit "http://a b:8080" in
  let url := lit "http://ab:8080" in
  In url (tee_worker_addresses (Some config))
  /\ In 98%N url
  /\ In 98%N config /\ 98%N <> space /\ 98%N <> comma.
Proof.
  cbv zeta.
  assert (H1 : In (lit "http://ab:8080")
                  (tee_worker_addresses (Some (lit "http://a b:8080"))))
    by (left; reflexivity).
  assert (H2 : In 98%N (lit "http://ab:8080")) by (vm_compute; tauto).
  split; [exact H1|]. split; [exact H2|].
  exact (proj1 (proj2 (spaces_deleted_before_parsing
                         (lit "http://a b:8080") (lit "http://ab:8080") 98%N)) H1 H2).
Defined.

(** ** The request sequence *)

Lemma bind_raises_only_Exception {A B} (m : outcome A) (k : A -> outcome B) :
  raises_only_Exception m ->
  (forall a, raises_only_Exception (k a)) ->
  raises_only_Exception (x <- m ;; k x).
Proof.
  intros Hm Hk e. destruct m as [a|e']; simpl.
  - apply Hk.
  - intros [= <-]. now apply Hm.
Qed.

Lemma return_raises_only_Exception {A} (a : A) : raises_only_Exception (Return a).
Proof. intros e H. discriminate. Qed.

Lemma send_raises_only_Exception (w : worker) (rq : request) :
  raises_only_Exception (send w rq).
Proof. unfold send. intros e. destruct (w rq); intros [= <-]. reflexivity. Qed.

Lemma raise_for_status_raises_only_Exception (r : response) :
  raises_only_Exception (raise_for_status r).
Proof.
  unfold raise_for_status. intros e.
  destruct ((200 <=? status_code r) && (status_code r <=? 299)); intros [= <-].
  reflexivity.
Qed.

Lemma decoded_content_raises_only_Exception (r : response) :
  raises_only_Exception (decoded_content r).
Proof. unfold decoded_content. intros e. destruct (content_utf8 r); intros [= <-]. reflexivity. Qed.

Lemma json_raises_only_Exception (r : response) : raises_only_Exception (json r).
Proof. unfold json. intros e. destruct (content_json r); intros [= <-]. reflexivity. Qed.

Lemma get_raises_only_Exception (key : str) (v : pyval) :
  raises_only_Exception (get key v).
Proof. intros e. destruct v; intros [= <-]; reflexivity. Qed.

Create HintDb raises.
#[local] Hint Resolve send_raises_only_Exception raise_for_status_raises_only_Exception
  decoded_content_raises_only_Exception json_raises_only_Exception
  get_raises_only_Exception return_raises_only_Exception : raises.

Ltac raises :=
  repeat (apply bind_raises_only_Exception; [|intro]); auto with raises.

Section Sequence.

Variable self : SimpleTelemetryClient.
Variable w : worker.

Lemma generate_twitter_job_raises : raises_only_Exception (generate_twitter_job self w).
Proof. unfold generate_twitter_job. raises. Qed.

Lemma add_job_raises sig : raises_only_Exception (add_job self w sig).
Proof. unfold add_job. cbv zeta. raises. Qed.

Lemma check_job_raises job_uuid : raises_only_Exception (check_job self w job_uuid).
Proof. unfold check_job. raises. Qed.

Lemma return_job_result_raises sig result_sig :
  raises_only_Exception (return_job_result self w sig result_sig).
Proof. unfold return_job_result. cbv zeta. raises. Qed.

Lemma twitter_sequence_body_raises : raises_only_Exception (twitter_sequence_body self w).
Proof.
  unfold twitter_sequence_body.
  apply bind_raises_only_Exception; [apply generate_twitter_job_raises | intro sig].
  apply bind_raises_only_Exception; [apply add_job_raises | intro job_uuid].
  apply bind_raises_only_Exception; [apply check_job_raises | intro status_sig].
  apply bind_raises_only_Exception; [apply return_job_result_raises | intro result].
  apply return_raises_only_Exception.
Qed.

(** A chain that raises yields [None]. *)
Lemma failed_chain_yields_None (e : exn) :
  twitter_sequence_body self w = Raise e ->
  execute_twitter_sequence self w = Return PyNone.
Proof.
  intros H. unfold execute_twitter_sequence. rewrite H. simpl.
  now rewrite (twitter_sequence_body_raises e H).
Qed.

Lemma execute_twitter_sequence_returns :
  exists result, execute_twitter_sequence self w = Return result.
Proof.
  unfold execute_twitter_sequence.
  destruct (twitter_sequence_body self w) as [r|e] eqn:E; simpl.
  - now exists r.
  - rewrite (twitter_sequence_body_raises e E). now exists PyNone.
Qed.

End Sequence.

(** C1: execute_twitter_sequence never raises: it returns a value for every
    behaviour of the worker, and when generate, submit, poll or finalize
    raises, in turn, the value returned is None. *)
Theorem sequence_errors_become_None :
  forall (self : SimpleTelemetryClient) (w : worker),
    (exists result, execute_twitter_sequence self w = Return result)
    /\ (forall e, execute_twitter_sequence self w <> Raise e)
    /\ (forall e,
          generate_twitter_job self w = Raise e ->
          execute_twitter_sequence self w = Return PyNone)
    /\ (forall sig e,
          generate_twitter_job self w = Return sig ->
          add_job self w sig = Raise e ->
          execute_twitter_sequence self w = Return PyNone)
    /\ (forall sig job_uuid e,
          generate_twitter_job self w = Return sig ->
          add_job self w sig = Return job_uuid ->
          check_job self w job_uuid = Raise e ->
          execute_twitter_sequence self w = Return PyNone)
    /\ (forall sig job_uuid status_sig e,
          generate_twitter_job self w = Return sig ->
          add_job self w sig = Return job_uuid ->
          check_job self w job_uuid = Return status_sig ->
          return_job_result self w sig status_sig = Raise e ->
          execute_twitter_sequence self w = Return PyNone).
Proof.
  intros self w.
  split; [apply execute_twitter_sequence_returns|].
  split.
  { intros e H. destruct (execute_twitter_sequence_returns self w) as [r Hr].
    rewrite Hr in H. discriminate. }
  repeat split; intros.
  - apply (failed_chain_yields_None self w e).
    unfold twitter_sequence_body. now rewrite H.
  - apply (failed_chain_yields_None self w e).
    unfold twitter_sequence_body. rewrite H. simpl. now rewrite H0.
  - apply (failed_chain_yields_None self w e).
    unfold twitter_sequence_body. rewrite H. simpl. rewrite H0. simpl. now rewrite H1.
  - apply (failed_chain_yields_None self w e).
    unfold twitter_sequence_body. rewrite H. simpl. rewrite H0. simpl.
    rewrite H1. simpl. now rewrite H2.
Qed.

Lemma sequence_errors_become_None_witness :
  generate_twitter_job client_a worker_refusing_jobs = Return quoted_signature
  /\ add_job client_a worker_refusing_jobs quoted_signature = Raise (HTTPStatusError 500)
  /\ execute_twitter_sequence client_a worker_refusing_jobs = Return PyNone.
Proof.
  split; [reflexivity|]. split; [reflexivity|].
  exact (proj1 (proj2 (proj2 (proj2
           (sequence_errors_become_None client_a worker_refusing_jobs))))
           quoted_signature (HTTPStatusError 500) eq_refl eq_refl).
Defined.

Lemma eqb_eq (a b : str) : PyStr.eqb a b = true -> a = b.
Proof. unfold PyStr.eqb. now destruct (list_eq_dec N.eq_dec a b). Qed.

Lemma eqb_refl (a : str) : PyStr.eqb a a = true.
Proof. unfold PyStr.eqb. now destruct (list_eq_dec N.eq_dec a a). Qed.

(** A dict without the key gives [None]. *)
Lemma dict_get_absent (key : str) (d : list (str * pyval)) :
  (forall v, ~ In (key, v) d) -> dict_get key d = PyNone.
Proof.
  induction d as [|[k v] rest IH]; simpl; intros H; [reflexivity|].
  destruct (PyStr.eqb k key) eqn:E.
  - apply eqb_eq in E. subst k. exfalso. apply (H v). now left.
  - apply IH. intros v' Hin. apply (H v'). now right.
Qed.

(** C6: when the worker answers the submission with a success status and a
    JSON object that has no uid field, add_job raises nothing and returns
    None; the sequence goes on and polls the status of the job None, so that
    what it yields is decided by the poll and by the final post. *)
Theorem missing_job_id_is_None :
  forall (self : SimpleTelemetryClient) (w : worker) (sig : str)
         (r : response) (d : list (str * pyval)),
    w (add_request self (sanitize sig)) = Answered r ->
    200 <= status_code r <= 299 ->
    content_json r = Some (PyDict d) ->
    (forall v, ~ In (lit "uid", v) d) ->
    add_job self w sig = Return PyNone
    /\ (generate_twitter_job self w = Return sig ->
        execute_twitter_sequence self w =
          try_except_Exception
            (status_sig <- check_job self w PyNone ;;
             return_job_result self w sig status_sig)
            (fun _ => Return PyNone)).
Proof.
  intros self w sig r d Hw Hstatus Hjson Hd.
  assert (Hadd : add_job self w sig = Return PyNone).
  { unfold add_job. cbv zeta. fold (sanitize sig).
    unfold send. rewrite Hw. simpl.
    unfold raise_for_status.
    replace ((200 <=? status_code r) && (status_code r <=? 299)) with true
      by (symmetry; apply andb_true_intro; split; apply Z.leb_le; lia).
    simpl. unfold json. rewrite Hjson. simpl.
    now rewrite dict_get_absent. }
  split; [exact Hadd|].
  intros Hgen. unfold execute_twitter_sequence, twitter_sequence_body.
  rewrite Hgen. simpl. rewrite Hadd. simpl.
  destruct (check_job self w PyNone) as [status_sig|e]; simpl; [|reflexivity].
  now destruct (return_job_result self w sig status_sig).
Qed.

Lemma missing_job_id_is_None_witness :
  add_job client_a worker_without_uid quoted_signature = Return PyNone
  /\ execute_twitter_sequence client_a worker_without_uid = Return PyNone.
Proof.
  assert (H : forall v, ~ In (lit "uid", v) [(lit "status", PyStr (lit "ok"))]).
  { intros v [E|[]]. discriminate E. }
  pose proof (missing_job_id_is_None client_a worker_without_uid quoted_signature
                (Response 200 (Some status_ok_body)
                          (Some (PyDict [(lit "status", PyStr (lit "ok"))])))
                [(lit "status", PyStr (lit "ok"))]
                eq_refl ltac:(simpl; lia) eq_refl H) as [Hadd Hseq].
  split; [exact Hadd|].
  rewrite (Hseq eq_refl). reflexivity.
Defined.

(** ** The counters *)

Lemma lookup_store (ip : str) (st st' : stats) (t : telemetry) :
  lookup ip t = Some st -> lookup ip (store ip st' t) = Some st'.
Proof.
  induction t as [|[k old] rest IH]; simpl; [discriminate|].
  destruct (PyStr.eqb k ip) eqn:E; simpl; rewrite E; [reflexivity|exact IH].
Qed.

Lemma store_store (ip : str) (st st' st'' : stats) (t : telemetry) :
  lookup ip t = Some st -> store ip st'' (store ip st' t) = store ip st'' t.
Proof.
  induction t as [|[k old] rest IH]; simpl; [discriminate|].
  destruct (PyStr.eqb k ip) eqn:E; simpl; rewrite E; [reflexivity|].
  intros H. now rewrite IH.
Qed.

Lemma lookup_store_other (ip other : str) (st' : stats) (t : telemetry) :
  PyStr.eqb other ip = false -> lookup other (store ip st' t) = lookup other t.
Proof.
  intros Hne. induction t as [|[k old] rest IH]; simpl.
  - destruct (PyStr.eqb ip other) eqn:E; [|reflexivity].
    apply eqb_eq in E. subst. now rewrite eqb_refl in Hne.
  - destruct (PyStr.eqb k ip) eqn:E; simpl.
    + apply eqb_eq in E. subst k. destruct (PyStr.eqb ip other) eqn:E'; [|reflexivity].
      apply eqb_eq in E'. subst. now rewrite eqb_refl in Hne.
    + now rewrite IH.
Qed.

(** What one call of execute_twitter_sequence_for_client does to the
    counters of an endpoint the dict knows: it raises nothing, it adds one
    to twitter_sequences, and it adds one to successful when the value the
    sequence returned is true in Python's sense, to failed otherwise. The
    counters of the other endpoints are as before. *)
Lemma for_client_counts (ip : str) (client : SimpleTelemetryClient) (w : worker)
    (t : telemetry) (st : stats) :
  lookup ip t = Some st ->
  exists result,
    execute_twitter_sequence client w = Return result
    /\ execute_twitter_sequence_for_client ip client w t =
         (Return tt,
          store ip
            (if truth result
             then Stats (twitter_sequences st + 1) (successful st + 1) (failed st)
             else Stats (twitter_sequences st + 1) (successful st) (failed st + 1))
            t).
Proof.
  intros Hip.
  destruct (execute_twitter_sequence_returns client w) as [result Hres].
  exists result. split; [exact Hres|].
  unfold execute_twitter_sequence_for_client, act_try_except_Exception,
    act_bind, act_lift.
  rewrite Hres. unfold bump at 1. rewrite Hip.
  destruct (truth result); unfold bump;
    rewrite (lookup_store ip st _ t Hip), (store_store ip st _ _ t Hip);
    reflexivity.
Qed.

Lemma for_client_other_endpoints (ip other : str) (client : SimpleTelemetryClient)
    (w : worker) (t : telemetry) (st : stats) :
  lookup ip t = Some st ->
  PyStr.eqb other ip = false ->
  lookup other (snd (execute_twitter_sequence_for_client ip client w t)) = lookup other t.
Proof.
  intros Hip Hne.
  destruct (for_client_counts ip client w t st Hip) as [result [_ ->]].
  simpl. now apply lookup_store_other.
Qed.

(** C2, on the code: a sequence in which all four calls succeed and the
    final post is answered with an empty JSON object returns that object,
    and is counted as attempted and failed, not as succeeded. *)
Theorem empty_result_is_counted_as_failed :
  twitter_sequence_body client_a worker_empty_result = Return (PyDict [])
  /\ execute_twitter_sequence client_a worker_empty_result = Return (PyDict [])
  /\ execute_twitter_sequence_for_client endpoint_a client_a worker_empty_result
       [(endpoint_a, Stats 0 0 0)]
     = (Return tt, [(endpoint_a, Stats 1 0 1)]).
Proof. repeat split. Qed.

(** ** The round loop *)

Lemma known_store (ip k : str) (st : stats) (t : telemetry) :
  known t k -> known (store ip st t) k.
Proof.
  intros [old H]. destruct (PyStr.eqb k ip) eqn:E.
  - apply eqb_eq in E. subst k. exists st. eapply lookup_store, H.
  - exists old. now rewrite lookup_store_other.
Qed.

Lemma known_store_same (ip : str) (st : stats) (t : telemetry) :
  known (store ip st t) ip.
Proof.
  exists st. induction t as [|[k old] rest IH]; simpl.
  - now rewrite eqb_refl.
  - destruct (PyStr.eqb k ip) eqn:E; simpl; now rewrite E.
Qed.

Lemma consistent_store (ip : str) (st : stats) (t : telemetry) :
  all_consistent t -> consistent st -> all_consistent (store ip st t).
Proof.
  unfold all_consistent. intros Ht Hst.
  induction Ht as [|[k old] rest Hold Hrest IH]; simpl.
  - constructor; [exact Hst | constructor].
  - destruct (PyStr.eqb k ip); constructor; assumption.
Qed.

Lemma consistent_lookup (ip : str) (st : stats) (t : telemetry) :
  all_consistent t -> lookup ip t = Some st -> consistent st.
Proof.
  unfold all_consistent. intros Ht.
  induction Ht as [|[k old] rest Hold Hrest IH]; simpl; [discriminate|].
  destruct (PyStr.eqb k ip); [|exact IH].
  now intros [= <-].
Qed.

Lemma initial_telemetry_known (addresses : list str) (ip : str) :
  In ip addresses -> known (initial_telemetry addresses) ip.
Proof.
  unfold initial_telemetry.
  assert (G : forall (l : list str) (acc : telemetry),
             known acc ip \/ In ip l ->
             known (fold_left (fun t k => store k (Stats 0 0 0) t) l acc) ip).
  { induction l as [|k l IH]; simpl; intros acc H.
    - destruct H as [H|[]]. exact H.
    - apply IH. destruct H as [H|[->|H]].
      + left. now apply known_store.
      + left. apply known_store_same.
      + now right. }
  intros H. apply G. now right.
Qed.

Lemma initial_telemetry_consistent (addresses : list str) :
  all_consistent (initial_telemetry addresses).
Proof.
  unfold initial_telemetry.
  assert (G : forall (l : list str) (acc : telemetry),
             all_consistent acc ->
             all_consistent (fold_left (fun t k => store k (Stats 0 0 0) t) l acc)).
  { induction l as [|k l IH]; simpl; intros acc H; [exact H|].
    apply IH. apply consistent_store; [exact H|].
    unfold consistent. simpl. lia. }
  apply G. constructor.
Qed.

Lemma make_clients_addresses (addresses : list str) (c : str * SimpleTelemetryClient) :
  In c (make_clients addresses) -> In (fst c) addresses.
Proof.
  unfold make_clients.
  assert (G : forall (l : list str) (acc : list (str * SimpleTelemetryClient)),
             In c (fold_left
                     (fun cs ip =>
                        if existsb (fun c => PyStr.eqb (fst c) ip) cs then cs
                        else cs ++ [(ip, Build_SimpleTelemetryClient ip)]) l acc) ->
             In c acc \/ In (fst c) l).
  { induction l as [|k l IH]; simpl; intros acc H; [now left|].
    apply IH in H. destruct H as [H|H]; [|now right; right].
    destruct (existsb _ acc); [now left|].
    apply in_app_or in H. destruct H as [H|[<-|[]]]; [now left|].
    right. now left. }
  intros H. apply G in H. destruct H as [[]|H]. exact H.
Qed.

(** A call of the client wrapper on a known endpoint returns, keeps every
    endpoint known and keeps the counters consistent. *)
Lemma for_client_preserves (ip : str) (client : SimpleTelemetryClient) (w : worker)
    (t : telemetry) :
  known t ip ->
  exists t',
    execute_twitter_sequence_for_client ip client w t = (Return tt, t')
    /\ (forall k, known t k -> known t' k)
    /\ (all_consistent t -> all_consistent t').
Proof.
  intros [st Hst].
  destruct (for_client_counts ip client w t st Hst) as [result [_ Heq]].
  eexists. split; [exact Heq|]. split.
  - intros k. apply known_store.
  - intros Hc. apply consistent_store; [exact Hc|].
    pose proof (consistent_lookup ip st t Hc Hst) as Hst'. unfold consistent in *.
    destruct (truth result); simpl; lia.
Qed.

(** The tasks of a round, over endpoints the dict knows, all return. *)
Lemma gather_round_returns (clients : list (str * SimpleTelemetryClient))
    (ws : str -> worker) (t : telemetry) :
  (forall c, In c clients -> known t (fst c)) ->
  exists t',
    gather (round_tasks clients ws) t = (Return tt, t')
    /\ (forall k, known t k -> known t' k)
    /\ (all_consistent t -> all_consistent t').
Proof.
  revert t. induction clients as [|c cs IH]; intros t Hk; simpl.
  - exists t. auto.
  - destruct (for_client_preserves (fst c) (snd c) (ws (fst c)) t) as [t1 [E1 [K1 C1]]].
    { apply Hk. now left. }
    rewrite E1.
    destruct (IH t1) as [t2 [E2 [K2 C2]]].
    { intros c' Hc'. apply K1, Hk. now right. }
    rewrite E2. exists t2. auto.
Qed.

(** In [main] every task is run on an endpoint of the dict, so no round
    raises: the loop is left by the interrupt only, it has logged its rounds
    and nothing else, and the counters are consistent. *)
Lemma round_loop_exit (rounds : nat) (p : interrupt_point) (W : world)
    (clients : list (str * SimpleTelemetryClient)) (sequence_count : Z)
    (t : telemetry) :
  (forall c, In c clients -> known t (fst c)) ->
  all_consistent t ->
  exists logs t',
    round_loop rounds p W clients sequence_count t = (logs, exit_at p, t')
    /\ forallb is_RunningRound logs = true
    /\ all_consistent t'.
Proof.
  revert sequence_count t.
  induction rounds as [|n IH]; intros k t Hk Hc; simpl.
  - destruct p as [|finished|]; simpl.
    + exists [RunningRound (k + 1)], t. auto.
    + destruct (gather_round_returns
                  (filter (fun c => finished (fst c)) clients) (W (k + 1)) t)
        as [t' [E [_ C]]].
      { intros c Hc'. apply filter_In in Hc'. apply Hk, Hc'. }
      rewrite E. exists [RunningRound (k + 1)], t'. auto.
    + destruct (gather_round_returns clients (W (k + 1)) t Hk) as [t' [E [_ C]]].
      rewrite E. exists [RunningRound (k + 1)], t'. auto.
  - destruct (gather_round_returns clients (W (k + 1)) t Hk) as [t' [E [K C]]].
    rewrite E.
    destruct (IH (k + 1) t') as [logs [t'' [E' [L C']]]]; auto.
    rewrite E'. exists (RunningRound (k + 1) :: logs), t''. auto.
Qed.

Lemma main_round_loop (addresses : list str) (W : world) (i : interruption) :
  exists logs t,
    round_loop (rounds_before i) (point i) W (make_clients addresses) 0
               (initial_telemetry addresses)
    = (logs, exit_at (point i), t)
    /\ forallb is_RunningRound logs = true
    /\ all_consistent t.
Proof.
  apply round_loop_exit.
  - intros c Hc. apply initial_telemetry_known. now apply make_clients_addresses.
  - apply initial_telemetry_consistent.
Qed.

Lemma no_summary_among_rounds (logs : list log) (l : log) :
  forallb is_RunningRound logs = true -> is_RunningRound l = false -> ~ In l logs.
Proof.
  intros H Hl Hin. rewrite forallb_forall in H. apply H in Hin. congruence.
Qed.

(** A signal handled while [main] is suspended ends the script without the
    summary. *)
Lemma suspended_main_prints_no_summary (WORKER_URLS : option str) (W : world)
    (i : interruption) :
  exit_at (point i) = RaisedInEventLoop KeyboardInterrupt ->
  ~ In SummaryHeader (fst (script WORKER_URLS W i)).
Proof.
  intros Hp. unfold script, main.
  destruct (tee_worker_addresses WORKER_URLS) as [|a l].
  { simpl. intros [H|[]]. discriminate. }
  destruct (main_round_loop (a :: l) W i) as [logs [t [E [L _]]]].
  rewrite E, Hp. simpl.
  intros [H|[H|H]]; try discriminate.
  apply in_app_or in H. destruct H as [H|[H|[]]]; [|discriminate].
  now apply (no_summary_among_rounds logs SummaryHeader L).
Qed.

(** A signal handled while [main] itself executes is caught at line 187 and
    the summary follows. *)
Lemma interrupt_in_main_prints_summary (WORKER_URLS : option str) (W : world)
    (n : nat) :
  tee_worker_addresses WORKER_URLS <> [] ->
  In SummaryHeader
     (fst (script WORKER_URLS W {| rounds_before := n; point := InMain |})).
Proof.
  intros Hne. unfold script, main.
  destruct (tee_worker_addresses WORKER_URLS) as [|a l]; [congruence|].
  destruct (main_round_loop (a :: l) W {| rounds_before := n; point := InMain |})
    as [logs [t [E _]]].
  simpl in E. simpl rounds_before. simpl point. rewrite E. simpl.
  unfold summary. destruct (summary_items t) as [printed r].
  assert (G : In SummaryHeader
                (UsingWorkerUrls (a :: l) :: LoopStarting
                   :: logs ++ LoopInterrupted :: SummaryHeader :: printed)).
  { right. right. apply in_or_app. right. right. now left. }
  destruct r as [u|e]; [exact G|].
  destruct e; cbn [fst]; try exact G; apply in_or_app; left; exact G.
Qed.

(** C8, on the code: when Ctrl+C is handled while main is suspended, at the
    sleep between two rounds or at the gather of a round, KeyboardInterrupt
    leaves the event loop, main is not resumed and the script ends without
    the summary; with one endpoint and the signal during the sleep after
    the second round, the script logs its two rounds and that it was
    interrupted, and closes the loop. *)
Theorem interrupt_while_suspended_skips_summary :
  forall (WORKER_URLS : option str) (W : world) (n : nat) (finished : str -> bool),
    ~ In SummaryHeader
        (fst (script WORKER_URLS W {| rounds_before := n; point := AtSleep |}))
    /\ ~ In SummaryHeader
           (fst (script WORKER_URLS W
                   {| rounds_before := n; point := AtGather finished |}))
    /\ script (Some endpoint_a) (fun _ _ => worker_empty_result)
              {| rounds_before := 1; point := AtSleep |}
       = ([UsingWorkerUrls [endpoint_a]; LoopStarting; RunningRound 1;
           RunningRound 2; ScriptInterrupted], true).
Proof.
  intros WORKER_URLS W n finished.
  split; [now apply suspended_main_prints_no_summary|].
  split; [now apply suspended_main_prints_no_summary|].
  reflexivity.
Qed.

(** ** The summary *)

Lemma digits2_pos_bounds (p : positive) :
  2 ^ (Zpos (digits2_pos p) - 1) <= Zpos p < 2 ^ Zpos (digits2_pos p).
Proof.
  induction p as [p IH|p IH|]; simpl digits2_pos.
  - rewrite Pos2Z.inj_succ.
    replace (Z.succ (Zpos (digits2_pos p)) - 1)
      with (Z.succ (Zpos (digits2_pos p) - 1)) by lia.
    rewrite !Z.pow_succ_r by lia. lia.
  - rewrite Pos2Z.inj_succ.
    replace (Z.succ (Zpos (digits2_pos p)) - 1)
      with (Z.succ (Zpos (digits2_pos p) - 1)) by lia.
    rewrite !Z.pow_succ_r by lia. lia.
  - simpl. lia.
Qed.

Lemma Zdigits2_le (m k : Z) : 0 <= m < 2 ^ k -> 0 <= k -> 0 <= Zdigits2 m <= k.
Proof.
  intros [Hm Hlt] Hk. destruct m as [|p|p]; simpl; [lia| |lia].
  split; [lia|].
  pose proof (digits2_pos_bounds p) as [Hlo _].
  assert (H : 2 ^ (Zpos (digits2_pos p) - 1) < 2 ^ k) by lia.
  apply Z.pow_lt_mono_r_iff in H; lia.
Qed.

Lemma iter_pos_invariant {A} (f : A -> A) (P : A -> Prop) :
  (forall x, P x -> P (f x)) -> forall n x, P x -> P (iter_pos f n x).
Proof.
  intros Hf. induction n as [n IH|n IH|]; intros x Hx; simpl; auto.
Qed.

Lemma shr_1_bound (M : Z) (mrs : shr_record) :
  0 <= shr_m mrs <= M -> 0 <= shr_m (shr_1 mrs) <= M.
Proof.
  destruct mrs as [m r s]. simpl.
  destruct m as [|[p|p|]|[p|p|]]; simpl; lia.
Qed.

(** A right shift does not enlarge the mantissa and moves the exponent up to
    the one asked for. *)
Lemma shr_bound (M : Z) (mrs : shr_record) (e n : Z) :
  0 <= shr_m mrs <= M ->
  0 <= shr_m (fst (shr mrs e n)) <= M /\ snd (shr mrs e n) = Z.max e (e + n).
Proof.
  intros H. unfold shr. destruct n as [|p|p]; simpl; try (split; [exact H | lia]).
  split; [|lia].
  apply (iter_pos_invariant shr_1 (fun x => 0 <= shr_m x <= M)); [|exact H].
  intros x. apply shr_1_bound.
Qed.

Lemma round_nearest_even_bound (m : Z) (l : location) :
  0 <= m -> 0 <= round_nearest_even m l <= m + 1.
Proof.
  intros H. unfold round_nearest_even.
  destruct l as [|[| |]]; try lia. destruct (Z.even m); lia.
Qed.

Lemma shr_record_of_loc_m (m : Z) (l : location) : shr_m (shr_record_of_loc m l) = m.
Proof. destruct l as [|[| |]]; reflexivity. Qed.

(** Rounding a quotient that is at most one does not overflow. *)
Lemma binary_round_aux_finite (sx : bool) (mx ex : Z) (lx : location) (s : Z) :
  53 <= s <= 1074 -> ex = - s -> 0 <= mx <= 2 ^ s ->
  finite_or_zero (binary_round_aux Float64.prec Float64.emax sx mx ex lx).
Proof.
  intros Hs -> Hmx.
  unfold binary_round_aux, shr_fexp, Float64.prec, Float64.emax.
  assert (Hpow : 2 ^ s < 2 ^ (s + 1)) by (apply Z.pow_lt_mono_r; lia).
  assert (Hpow2 : 2 ^ (s + 1) < 2 ^ (s + 2)) by (apply Z.pow_lt_mono_r; lia).
  assert (Hpos : 0 < 2 ^ s) by (apply Z.pow_pos_nonneg; lia).
  pose proof (Zdigits2_le mx (s + 1) ltac:(lia) ltac:(lia)) as Hd.
  set (n1 := fexp 53 1024 (Zdigits2 mx + - s) - - s).
  pose proof (shr_bound (2 ^ s) (shr_record_of_loc mx lx) (- s) n1) as [Hm1 He1].
  { now rewrite shr_record_of_loc_m. }
  destruct (shr (shr_record_of_loc mx lx) (- s) n1) as [mrs1 e1].
  simpl in Hm1, He1.
  pose proof (round_nearest_even_bound (shr_m mrs1) (loc_of_shr_record mrs1)
                ltac:(lia)) as Hr.
  set (m1 := round_nearest_even (shr_m mrs1) (loc_of_shr_record mrs1)) in *.
  pose proof (Zdigits2_le m1 (s + 2) ltac:(lia) ltac:(lia)) as Hd1.
  set (n2 := fexp 53 1024 (Zdigits2 m1 + e1) - e1).
  pose proof (shr_bound (2 ^ s + 1) (shr_record_of_loc m1 loc_Exact) e1 n2)
    as [Hm2 He2].
  { simpl. lia. }
  destruct (shr (shr_record_of_loc m1 loc_Exact) e1 n2) as [mrs2 e2].
  simpl in Hm2, He2.
  assert (He : e2 <= 971).
  { subst n1 n2. unfold fexp, emin in *. lia. }
  destruct (shr_m mrs2) as [|p|p]; simpl; [trivial| |lia].
  apply Z.leb_le in He. now rewrite He.
Qed.

(** The quotient of two counters, the first at most the second, is a finite
    [float]. *)
Lemma div_of_int_finite (a b : Z) :
  0 <= a <= b -> 0 < b ->
  finite_or_zero (Float64.div (Float64.of_int a) (Float64.of_int b)).
Proof.
  intros [Ha Hab] Hb. unfold Float64.div.
  destruct b as [|pb|pb]; try lia.
  destruct a as [|pa|pa]; try lia; simpl Float64.of_int; [exact I|].
  unfold SFdiv, SFdiv_core_binary, Float64.prec, Float64.emax.
  pose proof (digits2_pos_bounds pa) as [Hlo _].
  pose proof (digits2_pos_bounds pb) as [_ Hhi].
  assert (Hd : Zpos (digits2_pos pa) <= Zpos (digits2_pos pb)).
  { assert (H : 2 ^ (Zpos (digits2_pos pa) - 1) < 2 ^ Zpos (digits2_pos pb)) by lia.
    apply Z.pow_lt_mono_r_iff in H; lia. }
  simpl Zdigits2.
  set (e' := Z.min (fexp 53 1024 (Zpos (digits2_pos pa) + 0
                                  - (Zpos (digits2_pos pb) + 0))) (0 - 0)).
  assert (He' : -1074 <= e' <= -53) by (subst e'; unfold fexp, emin; lia).
  set (s := 0 - 0 - e').
  assert (Hs : 53 <= s <= 1074) by (subst s; lia).
  destruct s as [|ps|ps] eqn:Es; try lia.
  rewrite <- Es. rewrite Z.shiftl_mul_pow2 by lia.
  assert (Hpos : 0 < 2 ^ s) by (apply Z.pow_pos_nonneg; lia).
  pose proof (Z_div_mod (Zpos pa * 2 ^ s) (Zpos pb) ltac:(lia)) as Hdm.
  destruct (Z.div_eucl (Zpos pa * 2 ^ s) (Zpos pb)) as [q r].
  destruct Hdm as [Heq Hr].
  apply (binary_round_aux_finite _ q e' _ s); [lia | lia |].
  split; nia.
Qed.

Lemma truediv_returns (a b : Z) :
  0 <= a <= b -> 0 < b ->
  exists q, truediv a b = Return q /\ finite_or_zero q.
Proof.
  intros Hab Hb. unfold truediv.
  destruct (Z.eqb_spec b 0) as [->|_]; [lia|].
  pose proof (div_of_int_finite a b Hab Hb) as H.
  destruct (Float64.div (Float64.of_int a) (Float64.of_int b)) as [s|s| |s m e];
    try contradiction; eexists; split; try reflexivity; exact I.
Qed.

Lemma truediv_nonzero_divisor (a b : Z) :
  b <> 0 -> truediv a b <> Raise ZeroDivisionError.
Proof.
  intros Hb. unfold truediv.
  destruct (Z.eqb_spec b 0) as [->|_]; [congruence|].
  destruct (Float64.div (Float64.of_int a) (Float64.of_int b)); discriminate.
Qed.

Lemma success_rate_consistent (st : stats) :
  consistent st ->
  exists rate percent,
    success_rate st = Return rate /\ format_rate rate = Return percent.
Proof.
  intros [Hs [Hf Hsum]]. unfold success_rate.
  destruct (Z.gtb_spec (twitter_sequences st) 0) as [Hpos|Hle].
  - destruct (truediv_returns (successful st) (twitter_sequences st)) as [q [-> _]];
      [lia | lia |].
    simpl. eexists. eexists. split; reflexivity.
  - exists (Int 0), (lit "0.00"). split; reflexivity.
Qed.

(** With consistent counters the summary is printed to its end: one header
    and five lines for each endpoint. *)
Lemma summary_returns (t : telemetry) :
  all_consistent t ->
  exists logs, summary t = (SummaryHeader :: logs, Return tt)
               /\ List.length logs = (5 * List.length t)%nat.
Proof.
  unfold summary, all_consistent.
  induction 1 as [|[ip st] rest Hst Hrest IH].
  - exists []. split; reflexivity.
  - simpl.
    destruct (success_rate_consistent st Hst) as [rate [percent [-> ->]]].
    destruct IH as [logs [E L]].
    destruct (summary_items rest) as [logs' r].
    injection E as <- ->.
    eexists. split; [reflexivity|]. simpl. rewrite L. lia.
Qed.

(** C7: the success rate of an endpoint never divides by zero. With at
    least one attempt it is the float quotient successful /
    twitter_sequences times 100, and that division has a nonzero divisor
    and, on consistent counters, returns; with no attempt it is 0, printed
    as 0.00, also in the summary of an endpoint that was never tried. One
    success in three attempts prints 33.33, one in eight prints 12.50. *)
Theorem success_rate_never_divides_by_zero :
  forall st : stats,
    success_rate st <> Raise ZeroDivisionError
    /\ (0 < twitter_sequences st ->
        twitter_sequences st <> 0
        /\ success_rate st =
             (q <- truediv (successful st) (twitter_sequences st) ;;
              Return (Float (Float64.mul q (Float64.of_int 100)))))
    /\ (0 < twitter_sequences st -> consistent st ->
        exists q,
          truediv (successful st) (twitter_sequences st) = Return q
          /\ success_rate st = Return (Float (Float64.mul q (Float64.of_int 100))))
    /\ (twitter_sequences st = 0 ->
        success_rate st = Return (Int 0)
        /\ format_rate (Int 0) = Return (lit "0.00"))
    /\ summary [(endpoint_a, Stats 0 0 0)]
       = ([SummaryHeader; Node endpoint_a; Attempted 0; Successful 0;
           FailedSequences 0; SuccessRate (lit "0.00")], Return tt)
    /\ (rate <- success_rate (Stats 3 1 2) ;; format_rate rate) = Return (lit "33.33")
    /\ (rate <- success_rate (Stats 8 1 7) ;; format_rate rate) = Return (lit "12.50").
Proof.
  intros st. split.
  { unfold success_rate.
    destruct (Z.gtb_spec (twitter_sequences st) 0) as [Hpos|Hle]; [|discriminate].
    pose proof (truediv_nonzero_divisor (successful st) (twitter_sequences st)
                  ltac:(lia)) as H.
    destruct (truediv (successful st) (twitter_sequences st)) as [q|e]; simpl;
      [discriminate | congruence]. }
  split.
  { intros Hpos. split; [lia|]. unfold success_rate.
    destruct (Z.gtb_spec (twitter_sequences st) 0); [reflexivity | lia]. }
  split.
  { intros Hpos [Hs [Hf Hsum]].
    destruct (truediv_returns (successful st) (twitter_sequences st)) as [q [Hq _]];
      [lia | lia |].
    exists q. split; [exact Hq|]. unfold success_rate.
    destruct (Z.gtb_spec (twitter_sequences st) 0); [|lia].
    now rewrite Hq. }
  split.
  { intros Hzero. unfold success_rate. rewrite Hzero. split; reflexivity. }
  repeat split.
Qed.

Lemma success_rate_never_divides_by_zero_witness :
  0 < twitter_sequences (Stats 3 1 2)
  /\ consistent (Stats 3 1 2)
  /\ exists q,
       truediv 1 3 = Return q
       /\ success_rate (Stats 3 1 2) = Return (Float (Float64.mul q (Float64.of_int 100))).
Proof.
  assert (Hpos : 0 < twitter_sequences (Stats 3 1 2)) by (simpl; lia).
  assert (Hc : consistent (Stats 3 1 2)) by (unfold consistent; simpl; lia).
  split; [exact Hpos|]. split; [exact Hc|].
  exact (proj1 (proj2 (proj2 (success_rate_never_divides_by_zero (Stats 3 1 2))))
           Hpos Hc).
Defined.

(** A signal handled while [main] itself executes, with endpoints
    configured: [main] catches it, prints the whole summary and returns. *)
Lemma interrupt_in_main_returns (WORKER_URLS : option str) (W : world) (n : nat) :
  tee_worker_addresses WORKER_URLS <> [] ->
  exists logs t,
    main WORKER_URLS W {| rounds_before := n; point := InMain |} = (logs, Returned, t)
    /\ In LoopInterrupted logs /\ In SummaryHeader logs
    /\ all_consistent t.
Proof.
  intros Hne. unfold main.
  destruct (tee_worker_addresses WORKER_URLS) as [|a l]; [congruence|].
  destruct (main_round_loop (a :: l) W {| rounds_before := n; point := InMain |})
    as [logs [t [E [_ C]]]].
  simpl in E. simpl rounds_before. simpl point. rewrite E.
  destruct (summary_returns t C) as [printed [-> _]].
  eexists. exists t. split; [reflexivity|].
  split; [|split; [|exact C]]; right; right; apply in_or_app; right.
  - now left.
  - right. now left.
Qed.

(** * Further properties of the code *)

(** ** The request sequence, continued *)

(** X1: execute_twitter_sequence returns a value other than None exactly
    when generate, add, check and return all returned, each fed with what
    the calls before it returned, and the value is the one the final post
    returned. *)
Theorem sequence_result_is_final_answer :
  forall (self : SimpleTelemetryClient) (w : worker) (v : pyval),
    v <> PyNone ->
    (execute_twitter_sequence self w = Return v <->
     exists sig job_uuid status_sig,
       generate_twitter_job self w = Return sig
       /\ add_job self w sig = Return job_uuid
       /\ check_job self w job_uuid = Return status_sig
       /\ return_job_result self w sig status_sig = Return v).
Proof.
  intros self w v Hv. split.
  - intros H.
    destruct (twitter_sequence_body self w) as [r|e] eqn:E.
    + unfold execute_twitter_sequence in H. rewrite E in H. simpl in H.
      injection H as ->.
      unfold twitter_sequence_body in E.
      destruct (generate_twitter_job self w) as [sig|] eqn:E1; [|discriminate].
      simpl in E.
      destruct (add_job self w sig) as [job_uuid|] eqn:E2; [|discriminate].
      simpl in E.
      destruct (check_job self w job_uuid) as [status_sig|] eqn:E3; [|discriminate].
      simpl in E.
      destruct (return_job_result self w sig status_sig) as [r|] eqn:E4;
        [|discriminate].
      simpl in E. injection E as ->.
      exists sig, job_uuid, status_sig. auto.
    + rewrite (failed_chain_yields_None self w e E) in H. congruence.
  - intros [sig [job_uuid [status_sig [E1 [E2 [E3 E4]]]]]].
    unfold execute_twitter_sequence, twitter_sequence_body.
    rewrite E1. simpl. rewrite E2. simpl. rewrite E3. simpl. rewrite E4.
    reflexivity.
Qed.

Lemma sequence_result_is_final_answer_witness :
  execute_twitter_sequence client_a worker_with_result
    = Return (PyDict [(lit "status", PyStr (lit "ok"))])
  <-> exists sig job_uuid status_sig,
        generate_twitter_job client_a worker_with_result = Return sig
        /\ add_job client_a worker_with_result sig = Return job_uuid
        /\ check_job client_a worker_with_result job_uuid = Return status_sig
        /\ return_job_result client_a worker_with_result sig status_sig
           = Return (PyDict [(lit "status", PyStr (lit "ok"))]).
Proof.
  apply (sequence_result_is_final_answer client_a worker_with_result).
  discriminate.
Defined.

Lemma raise_for_status_refuses (r : response) :
  ~ (200 <= status_code r <= 299) ->
  raise_for_status r = Raise (HTTPStatusError (status_code r)).
Proof.
  intros H. unfold raise_for_status.
  destruct ((200 <=? status_code r) && (status_code r <=? 299)) eqn:E;
    [|reflexivity].
  apply andb_prop in E. destruct E as [E1 E2].
  apply Z.leb_le in E1. apply Z.leb_le in E2. lia.
Qed.

Lemma raise_for_status_accepts (r : response) :
  200 <= status_code r <= 299 -> raise_for_status r = Return tt.
Proof.
  intros H. unfold raise_for_status.
  replace ((200 <=? status_code r) && (status_code r <=? 299)) with true;
    [reflexivity|].
  symmetry. apply andb_true_intro. split; apply Z.leb_le; lia.
Qed.

(** X2: an answer whose status is not in 200..299 makes the method that
    made the request raise HTTPStatusError with that status, whatever the
    body of the answer holds; for the first request the whole sequence
    then yields None. *)
Theorem non_success_status_raises :
  forall (self : SimpleTelemetryClient) (w : worker) (r : response),
    ~ (200 <= status_code r <= 299) ->
    (w (generate_request self) = Answered r ->
     generate_twitter_job self w = Raise (HTTPStatusError (status_code r))
     /\ execute_twitter_sequence self w = Return PyNone)
    /\ (forall sig,
          w (add_request self (sanitize sig)) = Answered r ->
          add_job self w sig = Raise (HTTPStatusError (status_code r)))
    /\ (forall job_uuid,
          w (status_request self job_uuid) = Answered r ->
          check_job self w job_uuid = Raise (HTTPStatusError (status_code r)))
    /\ (forall sig result_sig,
          w (result_request self (sanitize result_sig) (sanitize sig)) = Answered r ->
          return_job_result self w sig result_sig
          = Raise (HTTPStatusError (status_code r))).
Proof.
  intros self w r Hr.
  pose proof (raise_for_status_refuses r Hr) as Hs.
  split.
  { intros Hw.
    assert (G : generate_twitter_job self w = Raise (HTTPStatusError (status_code r))).
    { unfold generate_twitter_job, send. rewrite Hw. simpl. now rewrite Hs. }
    split; [exact G|].
    apply (failed_chain_yields_None self w (HTTPStatusError (status_code r))).
    unfold twitter_sequence_body. now rewrite G. }
  split.
  { intros sig Hw. unfold add_job. cbv zeta. fold (sanitize sig).
    unfold send. rewrite Hw. simpl. now rewrite Hs. }
  split.
  { intros job_uuid Hw. unfold check_job, send. rewrite Hw. simpl. now rewrite Hs. }
  intros sig result_sig Hw. unfold return_job_result. cbv zeta.
  fold (sanitize sig). fold (sanitize result_sig).
  unfold send. rewrite Hw. simpl. now rewrite Hs.
Qed.

Lemma non_success_status_raises_witness :
  add_job client_a worker_refusing_jobs quoted_signature = Raise (HTTPStatusError 500).
Proof.
  assert (H : ~ (200 <= status_code (Response 500 (Some (lit "internal error")) None)
                 <= 299)) by (simpl; lia).
  exact (proj1 (proj2 (non_success_status_raises client_a worker_refusing_jobs
                         (Response 500 (Some (lit "internal error")) None) H))
           quoted_signature eq_refl).
Defined.

(** X3: what add_job makes of an accepted submission. With a success
    status, the body decides: a body that is not JSON raises
    JSONDecodeError, a JSON value that is not an object raises
    AttributeError, and an object gives the value under uid, of whatever
    type, without a check. *)
Theorem add_job_reads_uid :
  forall (self : SimpleTelemetryClient) (w : worker) (sig : str) (r : response),
    w (add_request self (sanitize sig)) = Answered r ->
    200 <= status_code r <= 299 ->
    add_job self w sig =
      match content_json r with
      | None => Raise JSONDecodeError
      | Some (PyDict d) => Return (dict_get (lit "uid") d)
      | Some _ => Raise AttributeError
      end.
Proof.
  intros self w sig r Hw Hs.
  unfold add_job. cbv zeta. fold (sanitize sig).
  unfold send. rewrite Hw. simpl.
  rewrite (raise_for_status_accepts r Hs). simpl.
  unfold json. destruct (content_json r) as [v|]; [|reflexivity].
  destruct v; reflexivity.
Qed.

Lemma add_job_reads_uid_witness :
  add_job client_a worker_answering_list quoted_signature = Raise AttributeError
  /\ add_job client_a worker_with_result quoted_signature = Return (PyStr (lit "job-1")).
Proof.
  split.
  - exact (add_job_reads_uid client_a worker_answering_list quoted_signature
             (Response 200 (Some (lit "[]")) (Some (PyList [])))
             eq_refl ltac:(simpl; lia)).
  - exact (add_job_reads_uid client_a worker_with_result quoted_signature
             (Response 200
                (Some (lit "{" ++ quoted "uid" ++ lit ": " ++ quoted "job-1" ++ lit "}"))
                (Some (PyDict [(lit "uid", PyStr (lit "job-1"))])))
             eq_refl ltac:(simpl; lia)).
Defined.

Lemma send_agrees (w w' : worker) (rq : request) :
  w' rq = w rq -> send w' rq = send w rq.
Proof. unfold send. now intros ->. Qed.

(** X4: what the sequence asks of the worker. Its outcome is decided by
    the answers to at most four requests: the generate request; the add
    request carrying the sanitized signature; the status request for the
    job id that add returned; and the result request carrying the sanitized
    status signature and the sanitized first signature (sanitized once, from
    the signature as generate returned it). A worker that answers these as
    another does gives the same outcome. *)
Theorem sequence_decided_by_four_answers :
  forall (self : SimpleTelemetryClient) (w w' : worker),
    w' (generate_request self) = w (generate_request self) ->
    (forall sig,
       generate_twitter_job self w = Return sig ->
       w' (add_request self (sanitize sig)) = w (add_request self (sanitize sig))) ->
    (forall sig job_uuid,
       generate_twitter_job self w = Return sig ->
       add_job self w sig = Return job_uuid ->
       w' (status_request self job_uuid) = w (status_request self job_uuid)) ->
    (forall sig job_uuid status_sig,
       generate_twitter_job self w = Return sig ->
       add_job self w sig = Return job_uuid ->
       check_job self w job_uuid = Return status_sig ->
       w' (result_request self (sanitize status_sig) (sanitize sig))
       = w (result_request self (sanitize status_sig) (sanitize sig))) ->
    execute_twitter_sequence self w' = execute_twitter_sequence self w.
Proof.
  intros self w w' H1 H2 H3 H4.
  assert (G1 : generate_twitter_job self w' = generate_twitter_job self w).
  { unfold generate_twitter_job. now rewrite (send_agrees w w' _ H1). }
  unfold execute_twitter_sequence, twitter_sequence_body. rewrite G1.
  destruct (generate_twitter_job self w) as [sig|e] eqn:E1; [|reflexivity].
  simpl.
  assert (G2 : add_job self w' sig = add_job self w sig).
  { unfold add_job. cbv zeta. fold (sanitize sig).
    now rewrite (send_agrees w w' _ (H2 sig eq_refl)). }
  rewrite G2.
  destruct (add_job self w sig) as [job_uuid|e] eqn:E2; [|reflexivity].
  simpl.
  assert (G3 : check_job self w' job_uuid = check_job self w job_uuid).
  { unfold check_job. now rewrite (send_agrees w w' _ (H3 sig job_uuid eq_refl E2)). }
  rewrite G3.
  destruct (check_job self w job_uuid) as [status_sig|e] eqn:E3; [|reflexivity].
  simpl.
  assert (G4 : return_job_result self w' sig status_sig
               = return_job_result self w sig status_sig).
  { unfold return_job_result. cbv zeta.
    fold (sanitize sig). fold (sanitize status_sig).
    now rewrite (send_agrees w w' _ (H4 sig job_uuid status_sig eq_refl E2 E3)). }
  now rewrite G4.
Qed.

(** ** The endpoints of a run *)

Lemma existsb_key (k : str) (keys : list str) :
  existsb (fun x => PyStr.eqb x k) keys = true <-> In k keys.
Proof.
  rewrite existsb_exists. split.
  - intros [x [Hx E]]. apply eqb_eq in E. now subst.
  - intros H. exists k. split; [exact H | apply eqb_refl].
Qed.

Lemma keys_store (k : str) (st : stats) (t : telemetry) :
  map fst (store k st t) = add_key k (map fst t).
Proof.
  unfold add_key. induction t as [|[k' old] rest IH]; simpl; [reflexivity|].
  destruct (PyStr.eqb k' k) eqn:E; simpl; [reflexivity|].
  rewrite IH. now destruct (existsb (fun x => PyStr.eqb x k) (map fst rest)).
Qed.

Lemma keys_add_client (k : str) (cs : list (str * SimpleTelemetryClient)) :
  map fst (if existsb (fun c => PyStr.eqb (fst c) k) cs then cs
           else cs ++ [(k, Build_SimpleTelemetryClient k)])
  = add_key k (map fst cs).
Proof.
  unfold add_key.
  replace (existsb (fun x => PyStr.eqb x k) (map fst cs))
    with (existsb (fun c => PyStr.eqb (fst c) k) cs).
  - destruct (existsb _ cs); [reflexivity|]. now rewrite map_app.
  - induction cs as [|c cs IH]; simpl; [reflexivity|]. now rewrite IH.
Qed.

Lemma keys_initial_telemetry (addresses : list str) :
  map fst (initial_telemetry addresses)
  = fold_left (fun keys k => add_key k keys) addresses [].
Proof.
  unfold initial_telemetry.
  assert (G : forall (l : list str) (acc : telemetry),
             map fst (fold_left (fun t k => store k (Stats 0 0 0) t) l acc)
             = fold_left (fun keys k => add_key k keys) l (map fst acc)).
  { induction l as [|k l IH]; intros acc; simpl; [reflexivity|].
    rewrite IH. now rewrite keys_store. }
  apply G.
Qed.

Lemma keys_make_clients (addresses : list str) :
  map fst (make_clients addresses)
  = fold_left (fun keys k => add_key k keys) addresses [].
Proof.
  unfold make_clients.
  assert (G : forall (l : list str) (acc : list (str * SimpleTelemetryClient)),
             map fst (fold_left
                        (fun cs ip =>
                           if existsb (fun c => PyStr.eqb (fst c) ip) cs then cs
                           else cs ++ [(ip, Build_SimpleTelemetryClient ip)]) l acc)
             = fold_left (fun keys k => add_key k keys) l (map fst acc)).
  { induction l as [|k l IH]; intros acc; simpl; [reflexivity|].
    rewrite IH. now rewrite keys_add_client. }
  apply G.
Qed.

Lemma add_key_NoDup (k : str) (keys : list str) :
  NoDup keys -> NoDup (add_key k keys).
Proof.
  intros H. unfold add_key.
  destruct (existsb (fun x => PyStr.eqb x k) keys) eqn:E; [exact H|].
  apply NoDup_app; [exact H | constructor; [intros [] | constructor] |].
  intros x Hx [<-|[]]. apply existsb_key in Hx. congruence.
Qed.

Lemma add_key_In (k x : str) (keys : list str) :
  In x (add_key k keys) <-> x = k \/ In x keys.
Proof.
  unfold add_key.
  destruct (existsb (fun y => PyStr.eqb y k) keys) eqn:E.
  - apply existsb_key in E. split; [now right | intros [->|H]; assumption].
  - rewrite in_app_iff. simpl. intuition.
Qed.

Lemma fold_add_key_NoDup (l acc : list str) :
  NoDup acc -> NoDup (fold_left (fun keys k => add_key k keys) l acc).
Proof.
  revert acc. induction l as [|k l IH]; intros acc H; simpl; [exact H|].
  apply IH. now apply add_key_NoDup.
Qed.

Lemma fold_add_key_In (x : str) (l acc : list str) :
  In x (fold_left (fun keys k => add_key k keys) l acc) <-> In x acc \/ In x l.
Proof.
  revert acc. induction l as [|k l IH]; intros acc; simpl; [tauto|].
  rewrite IH, add_key_In. intuition.
Qed.

Lemma initial_telemetry_zero (addresses : list str) (ip : str) (st : stats) :
  lookup ip (initial_telemetry addresses) = Some st -> st = Stats 0 0 0.
Proof.
  unfold initial_telemetry.
  assert (G : forall (l : list str) (acc : telemetry),
             (forall s, lookup ip acc = Some s -> s = Stats 0 0 0) ->
             lookup ip (fold_left (fun t k => store k (Stats 0 0 0) t) l acc) = Some st ->
             st = Stats 0 0 0).
  { induction l as [|k l IH]; simpl; intros acc Hacc H; [now apply Hacc|].
    apply (IH (store k (Stats 0 0 0) acc)); [|exact H].
    intros s Hs. destruct (PyStr.eqb ip k) eqn:E.
    - apply eqb_eq in E. subst k.
      destruct (lookup ip acc) as [old|] eqn:L.
      + rewrite (lookup_store ip old _ acc L) in Hs. congruence.
      + assert (F : forall t, lookup ip t = None ->
                              lookup ip (store ip (Stats 0 0 0) t) = Some (Stats 0 0 0)).
        { clear. induction t as [|[k' o] rest IH]; simpl.
          - now rewrite eqb_refl.
          - destruct (PyStr.eqb k' ip) eqn:E; [discriminate|].
            simpl. rewrite E. exact IH. }
        rewrite (F acc L) in Hs. congruence.
    - rewrite lookup_store_other in Hs by assumption. now apply Hacc. }
  apply G. intros s H. discriminate.
Qed.

Lemma make_clients_client (addresses : list str) (c : str * SimpleTelemetryClient) :
  In c (make_clients addresses) -> snd c = Build_SimpleTelemetryClient (fst c).
Proof.
  unfold make_clients.
  assert (G : forall (l : list str) (acc : list (str * SimpleTelemetryClient)),
             (forall x, In x acc -> snd x = Build_SimpleTelemetryClient (fst x)) ->
             In c (fold_left
                     (fun cs ip =>
                        if existsb (fun c => PyStr.eqb (fst c) ip) cs then cs
                        else cs ++ [(ip, Build_SimpleTelemetryClient ip)]) l acc) ->
             snd c = Build_SimpleTelemetryClient (fst c)).
  { induction l as [|k l IH]; simpl; intros acc Hacc H; [now apply Hacc|].
    apply IH in H; [exact H|].
    intros x Hx. destruct (existsb _ acc); [now apply Hacc|].
    apply in_app_or in Hx. destruct Hx as [Hx|[<-|[]]]; [now apply Hacc|reflexivity]. }
  apply G. intros x [].
Qed.

(** X5: the endpoints of a run. The dict of counters and the dict of clients
    have the same keys in the same order, without a duplicate: an address
    listed twice in the configuration gets one client and one set of
    counters; the keys are the configured addresses, every counter starts at
    zero and every client talks to the address it is filed under. *)
Theorem endpoints_of_a_run :
  forall addresses : list str,
    map fst (initial_telemetry addresses) = map fst (make_clients addresses)
    /\ NoDup (map fst (make_clients addresses))
    /\ (forall ip, In ip (map fst (make_clients addresses)) <-> In ip addresses)
    /\ (forall ip st, lookup ip (initial_telemetry addresses) = Some st ->
                      st = Stats 0 0 0)
    /\ (forall c, In c (make_clients addresses) ->
                  tee_worker_address (snd c) = fst c).
Proof.
  intros addresses.
  split; [now rewrite keys_initial_telemetry, keys_make_clients|].
  split; [rewrite keys_make_clients; apply fold_add_key_NoDup; constructor|].
  split.
  { intros ip. rewrite keys_make_clients, fold_add_key_In. simpl. tauto. }
  split; [apply initial_telemetry_zero|].
  intros c Hc. now rewrite (make_clients_client addresses c Hc).
Qed.

Lemma endpoints_of_a_run_witness :
  map fst (make_clients [lit "a"; lit "b"; lit "a"]) = [lit "a"; lit "b"]
  /\ In (lit "a") [lit "a"; lit "b"; lit "a"]
  /\ In (lit "a") (map fst (make_clients [lit "a"; lit "b"; lit "a"])).
Proof.
  assert (H : In (lit "a") [lit "a"; lit "b"; lit "a"]) by (left; reflexivity).
  split; [reflexivity|]. split; [exact H|].
  exact (proj2 (proj1 (proj2 (proj2 (endpoints_of_a_run [lit "a"; lit "b"; lit "a"])))
                  (lit "a")) H).
Defined.

Lemma sequence_decided_by_four_answers_witness :
  execute_twitter_sequence client_a worker_strict
  = execute_twitter_sequence client_a worker_with_result.
Proof.
  apply sequence_decided_by_four_answers.
  - reflexivity.
  - intros sig H. injection H as <-. reflexivity.
  - intros sig job_uuid H1 H2. injection H1 as <-. injection H2 as <-. reflexivity.
  - intros sig job_uuid status_sig H1 H2 H3.
    injection H1 as <-. injection H2 as <-. injection H3 as <-. reflexivity.
Defined.

(** ** The counters, continued *)

Lemma sequence_result_spec (ip : str) (w : worker) (W : world) (k : Z) :
  W k ip = w ->
  execute_twitter_sequence (Build_SimpleTelemetryClient ip) w
  = Return (sequence_result W k ip).
Proof.
  intros <-. unfold sequence_result.
  destruct (execute_twitter_sequence_returns (Build_SimpleTelemetryClient ip) (W k ip))
    as [r ->].
  reflexivity.
Qed.

(** X6: one call of execute_twitter_sequence_for_client for an endpoint the
    dict knows returns without raising and replaces the counters of that
    endpoint by: twitter_sequences plus one, and successful plus one when
    the sequence returned a true value, failed plus one otherwise; the keys
    of the dict, their order and the counters of every other endpoint are
    unchanged. *)
Theorem client_wrapper_counts_one_attempt :
  forall (ip : str) (client : SimpleTelemetryClient) (w : worker)
         (t : telemetry) (st : stats),
    lookup ip t = Some st ->
    exists result t',
      execute_twitter_sequence client w = Return result
      /\ execute_twitter_sequence_for_client ip client w t = (Return tt, t')
      /\ lookup ip t' = Some (counted st result)
      /\ map fst t' = map fst t
      /\ (forall other, PyStr.eqb other ip = false -> lookup other t' = lookup other t).
Proof.
  intros ip client w t st Hip.
  destruct (for_client_counts ip client w t st Hip) as [result [Hres Heq]].
  exists result. eexists. split; [exact Hres|]. split; [exact Heq|].
  fold (counted st result). split; [eapply lookup_store, Hip|]. split.
  - rewrite keys_store. unfold add_key.
    replace (existsb (fun x => PyStr.eqb x ip) (map fst t)) with true; [reflexivity|].
    symmetry. apply existsb_key.
    clear - Hip. induction t as [|[k old] rest IH]; simpl in *; [discriminate|].
    destruct (PyStr.eqb k ip) eqn:E; [left; now apply eqb_eq | right; now apply IH].
  - intros other Hne. now apply lookup_store_other.
Qed.

Lemma client_wrapper_counts_one_attempt_witness :
  exists result t',
    execute_twitter_sequence client_a worker_with_result = Return result
    /\ execute_twitter_sequence_for_client endpoint_a client_a worker_with_result
         [(endpoint_a, Stats 4 3 1)] = (Return tt, t')
    /\ lookup endpoint_a t' = Some (counted (Stats 4 3 1) result)
    /\ map fst t' = [endpoint_a]
    /\ (forall other, PyStr.eqb other endpoint_a = false ->
                      lookup other t' = lookup other [(endpoint_a, Stats 4 3 1)]).
Proof.
  exact (client_wrapper_counts_one_attempt endpoint_a client_a worker_with_result
           [(endpoint_a, Stats 4 3 1)] (Stats 4 3 1) eq_refl).
Defined.

(** X7: for an endpoint the dict does not know, the wrapper still runs the
    sequence, then fails on the dict: the KeyError of the first increment is
    caught by its except clause, whose own increment raises KeyError again,
    and this one leaves the function; the dict is unchanged. *)
Theorem client_wrapper_unknown_endpoint :
  forall (ip : str) (client : SimpleTelemetryClient) (w : worker) (t : telemetry),
    lookup ip t = None ->
    execute_twitter_sequence_for_client ip client w t = (Raise (KeyError ip), t).
Proof.
  intros ip client w t Hip.
  destruct (execute_twitter_sequence_returns client w) as [result Hres].
  unfold execute_twitter_sequence_for_client, act_try_except_Exception,
    act_bind, act_lift.
  rewrite Hres. unfold bump. rewrite Hip. simpl. now rewrite Hip.
Qed.

Lemma client_wrapper_unknown_endpoint_witness :
  execute_twitter_sequence_for_client (lit "http://b:8080") client_a
    worker_with_result [(endpoint_a, Stats 0 0 0)]
  = (Raise (KeyError (lit "http://b:8080")), [(endpoint_a, Stats 0 0 0)]).
Proof.
  exact (client_wrapper_unknown_endpoint (lit "http://b:8080") client_a
           worker_with_result [(endpoint_a, Stats 0 0 0)] eq_refl).
Defined.

(** The wrapper on a known endpoint, with the value of the sequence read
    off the call. *)
Lemma wrapper_on_known_endpoint (ip : str) (client : SimpleTelemetryClient)
    (w : worker) (t : telemetry) (st : stats) :
  lookup ip t = Some st ->
  exists t',
    execute_twitter_sequence_for_client ip client w t = (Return tt, t')
    /\ lookup ip t'
       = Some (counted st (match execute_twitter_sequence client w with
                           | Return v => v
                           | Raise _ => PyNone
                           end))
    /\ (forall k, known t k -> known t' k)
    /\ (forall other, PyStr.eqb other ip = false -> lookup other t' = lookup other t).
Proof.
  intros Hip.
  destruct (for_client_counts ip client w t st Hip) as [result [Hres Heq]].
  eexists. split; [exact Heq|]. rewrite Hres. fold (counted st result).
  split; [eapply lookup_store, Hip|]. split.
  - intros k. apply known_store.
  - intros other Hne. now apply lookup_store_other.
Qed.

Lemma gather_cons (task : action unit) (rest : list (action unit)) (t : telemetry) :
  snd (gather (task :: rest) t) = snd (gather rest (snd (task t))).
Proof.
  simpl. destruct (task t) as [r t1]. simpl.
  now destruct (gather rest t1) as [rs t2].
Qed.

(** A round leaves alone the counters of an endpoint it has no task for. *)
Lemma gather_round_other (clients : list (str * SimpleTelemetryClient))
    (ws : str -> worker) (t : telemetry) (ip : str) :
  (forall c, In c clients -> known t (fst c)) ->
  ~ In ip (map fst clients) ->
  lookup ip (snd (gather (round_tasks clients ws) t)) = lookup ip t.
Proof.
  revert t. induction clients as [|c cs IH]; intros t Hk Hip; [reflexivity|].
  simpl round_tasks. rewrite gather_cons.
  destruct (Hk c (or_introl eq_refl)) as [st Hst].
  destruct (wrapper_on_known_endpoint (fst c) (snd c) (ws (fst c)) t st Hst)
    as [t1 [E1 [_ [K1 O1]]]].
  rewrite E1. simpl snd.
  rewrite IH.
  - apply O1. destruct (PyStr.eqb ip (fst c)) eqn:E; [|reflexivity].
    apply eqb_eq in E. exfalso. apply Hip. left. now symmetry.
  - intros c' Hc'. apply K1, Hk. now right.
  - intros H. apply Hip. now right.
Qed.

(** A round counts one attempt for each endpoint it has a task for, with
    the value the sequence of that endpoint returned. *)
Lemma gather_round_lookup (clients : list (str * SimpleTelemetryClient))
    (W : world) (k : Z) (t : telemetry) (ip : str) (st : stats) :
  NoDup (map fst clients) ->
  (forall c, In c clients -> known t (fst c)) ->
  (forall c, In c clients -> snd c = Build_SimpleTelemetryClient (fst c)) ->
  In ip (map fst clients) ->
  lookup ip t = Some st ->
  lookup ip (snd (gather (round_tasks clients (W k)) t))
  = Some (counted st (sequence_result W k ip)).
Proof.
  revert t. induction clients as [|c cs IH]; intros t Hnd Hk Hc Hin Hst; [destruct Hin|].
  simpl round_tasks. rewrite gather_cons.
  simpl in Hnd. apply NoDup_cons_iff in Hnd. destruct Hnd as [Hnotin Hnd].
  destruct (Hk c (or_introl eq_refl)) as [stc Hstc].
  destruct (wrapper_on_known_endpoint (fst c) (snd c) (W k (fst c)) t stc Hstc)
    as [t1 [E1 [L1 [K1 O1]]]].
  rewrite E1. simpl snd.
  assert (Hk1 : forall c', In c' cs -> known t1 (fst c')).
  { intros c' Hc'. apply K1, Hk. now right. }
  destruct (PyStr.eqb ip (fst c)) eqn:E.
  - apply eqb_eq in E. subst ip.
    rewrite gather_round_other by assumption.
    rewrite Hstc in Hst. injection Hst as ->.
    rewrite L1. f_equal. f_equal.
    rewrite (Hc c (or_introl eq_refl)).
    unfold sequence_result. reflexivity.
  - destruct Hin as [Hin|Hin]; [subst; now rewrite eqb_refl in E|].
    apply IH; try assumption.
    + intros c' Hc'. apply Hc. now right.
    + rewrite O1 by assumption. exact Hst.
Qed.

Lemma keys_filter_NoDup {A} (f : str * A -> bool) (l : list (str * A)) :
  NoDup (map fst l) -> NoDup (map fst (filter f l)).
Proof.
  induction l as [|c l IH]; simpl; intros H; [constructor|].
  apply NoDup_cons_iff in H. destruct H as [Hc Hl].
  destruct (f c); simpl; [|now apply IH].
  constructor; [|now apply IH].
  intros Hin. apply Hc. apply in_map_iff in Hin. destruct Hin as [x [<- Hx]].
  apply filter_In in Hx. apply in_map. tauto.
Qed.

(** The counters of an endpoint after the loop: one attempt for each
    completed round and one more if its task had finished in the round the
    signal fell in. *)
Lemma round_loop_lookup (rounds : nat) (p : interrupt_point) (W : world)
    (clients : list (str * SimpleTelemetryClient)) (k : Z) (t : telemetry)
    (ip : str) (st : stats) :
  NoDup (map fst clients) ->
  (forall c, In c clients -> known t (fst c)) ->
  (forall c, In c clients -> snd c = Build_SimpleTelemetryClient (fst c)) ->
  In ip (map fst clients) ->
  lookup ip t = Some st ->
  lookup ip (snd (round_loop rounds p W clients k t))
  = Some (after_rounds W ip k (rounds + last_round p ip) st).
Proof.
  intros Hnd. revert k t st.
  induction rounds as [|n IH]; intros k t st Hk Hc Hin Hst.
  - simpl round_loop. destruct p as [|finished|]; simpl last_round.
    + simpl. exact Hst.
    + destruct (gather (round_tasks (filter (fun c => finished (fst c)) clients)
                          (W (k + 1))) t) as [r t'] eqn:E.
      simpl snd.
      assert (Et : t' = snd (gather (round_tasks
                                       (filter (fun c => finished (fst c)) clients)
                                       (W (k + 1))) t)) by now rewrite E.
      rewrite Et.
      assert (Hk' : forall c, In c (filter (fun c => finished (fst c)) clients) ->
                              known t (fst c)).
      { intros c Hc'. apply filter_In in Hc'. apply Hk, Hc'. }
      destruct (finished ip) eqn:F.
      * simpl. apply gather_round_lookup; try assumption.
        -- now apply keys_filter_NoDup.
        -- intros c Hc'. apply filter_In in Hc'. apply Hc, Hc'.
        -- apply in_map_iff in Hin. destruct Hin as [c [<- Hc']].
           apply in_map. apply filter_In. split; assumption.
      * simpl. rewrite gather_round_other; try assumption.
        intros H. apply in_map_iff in H. destruct H as [c [<- Hc']].
        apply filter_In in Hc'. destruct Hc' as [_ Hf]. congruence.
    + destruct (gather_round_returns clients (W (k + 1)) t Hk) as [t' [E _]].
      rewrite E. simpl snd.
      replace t' with (snd (gather (round_tasks clients (W (k + 1))) t))
        by now rewrite E.
      simpl. now apply gather_round_lookup.
  - simpl round_loop.
    destruct (gather_round_returns clients (W (k + 1)) t Hk) as [t' [E [K _]]].
    rewrite E.
    assert (L : lookup ip t' = Some (counted st (sequence_result W (k + 1) ip))).
    { replace t' with (snd (gather (round_tasks clients (W (k + 1))) t))
        by now rewrite E.
      now apply gather_round_lookup. }
    specialize (IH (k + 1) t' _ (fun c Hc' => K _ (Hk c Hc')) Hc Hin L).
    destruct (round_loop n p W clients (k + 1) t') as [[logs exit] t''].
    simpl in *. exact IH.
Qed.

Lemma successes_bounds (W : world) (ip : str) (k : Z) (m : nat) :
  0 <= successes W ip k m <= Z.of_nat m.
Proof.
  revert k. induction m as [|m IH]; intros k; [simpl; lia|].
  cbn [successes]. specialize (IH (k + 1)).
  destruct (truth (sequence_result W (k + 1) ip)); lia.
Qed.

Lemma after_rounds_closed (W : world) (ip : str) (k : Z) (m : nat) (st : stats) :
  after_rounds W ip k m st
  = Stats (twitter_sequences st + Z.of_nat m)
          (successful st + successes W ip k m)
          (failed st + (Z.of_nat m - successes W ip k m)).
Proof.
  revert k st. induction m as [|m IH]; intros k st.
  - simpl. destruct st. simpl. f_equal; lia.
  - cbn [after_rounds successes]. rewrite IH. unfold counted.
    rewrite Nat2Z.inj_succ.
    destruct (truth (sequence_result W (k + 1) ip));
      cbn [twitter_sequences successful failed]; f_equal; lia.
Qed.

Lemma successes_agree (W W' : world) (ip : str) (k : Z) (m : nat) :
  (forall j, W j ip = W' j ip) -> successes W ip k m = successes W' ip k m.
Proof.
  intros H. revert k. induction m as [|m IH]; intros k; [reflexivity|].
  cbn [successes]. rewrite IH. unfold sequence_result. now rewrite H.
Qed.

Lemma main_telemetry (WORKER_URLS : option str) (W : world) (i : interruption) :
  snd (main WORKER_URLS W i)
  = match tee_worker_addresses WORKER_URLS with
    | [] => []
    | addresses =>
        snd (round_loop (rounds_before i) (point i) W (make_clients addresses) 0
                        (initial_telemetry addresses))
    end.
Proof.
  unfold main.
  destruct (tee_worker_addresses WORKER_URLS) as [|a l]; [reflexivity|].
  destruct (round_loop (rounds_before i) (point i) W (make_clients (a :: l)) 0
                       (initial_telemetry (a :: l))) as [[logs exit] t].
  simpl snd.
  destruct exit as [e|e]; [|reflexivity].
  destruct e; try reflexivity.
  now destruct (summary t).
Qed.

(** The counters [main] holds for a configured endpoint when the run ends. *)
Lemma main_lookup (WORKER_URLS : option str) (W : world) (i : interruption)
    (ip : str) :
  In ip (tee_worker_addresses WORKER_URLS) ->
  lookup ip (snd (main WORKER_URLS W i))
  = Some (after_rounds W ip 0 (rounds_before i + last_round (point i) ip)
                       (Stats 0 0 0)).
Proof.
  intros Hin. rewrite main_telemetry.
  destruct (tee_worker_addresses WORKER_URLS) as [|a l] eqn:E; [destruct Hin|].
  assert (Hkeys : In ip (map fst (make_clients (a :: l)))).
  { rewrite keys_make_clients, fold_add_key_In. now right. }
  destruct (initial_telemetry_known (a :: l) ip Hin) as [st Hst].
  rewrite (initial_telemetry_zero _ _ _ Hst) in Hst.
  apply round_loop_lookup; try assumption.
  - rewrite keys_make_clients. apply fold_add_key_NoDup. constructor.
  - intros c Hc. apply initial_telemetry_known. now apply make_clients_addresses.
  - apply make_clients_client.
Qed.

(** X8: the counters at the end of a run. For every configured endpoint,
    twitter_sequences is the number of rounds its task completed (the rounds
    before the signal, and the round of the signal if its task had finished
    in it), successful is the number of those rounds in which its sequence
    returned a true value, and failed is the number of the others: every
    attempt is counted exactly once. *)
Theorem counters_at_the_end_of_a_run :
  forall (WORKER_URLS : option str) (W : world) (i : interruption) (ip : str),
    In ip (tee_worker_addresses WORKER_URLS) ->
    let n := (rounds_before i + last_round (point i) ip)%nat in
    exists st,
      lookup ip (snd (main WORKER_URLS W i)) = Some st
      /\ twitter_sequences st = Z.of_nat n
      /\ successful st = successes W ip 0 n
      /\ failed st = Z.of_nat n - successes W ip 0 n
      /\ 0 <= successful st <= twitter_sequences st.
Proof.
  intros WORKER_URLS W i ip Hin n.
  eexists. split; [now apply main_lookup|].
  fold n. rewrite after_rounds_closed. simpl.
  pose proof (successes_bounds W ip 0 n). repeat split; lia.
Qed.

Lemma counters_at_the_end_of_a_run_witness :
  exists st,
    lookup endpoint_a
      (snd (main (Some endpoint_a) (fun _ _ => worker_with_result)
                 {| rounds_before := 3; point := InMain |})) = Some st
    /\ twitter_sequences st = 3
    /\ successful st = successes (fun _ _ => worker_with_result) endpoint_a 0 3
    /\ failed st = 3 - successes (fun _ _ => worker_with_result) endpoint_a 0 3
    /\ 0 <= successful st <= twitter_sequences st.
Proof.
  apply (counters_at_the_end_of_a_run (Some endpoint_a)
           (fun _ _ => worker_with_result)
           {| rounds_before := 3; point := InMain |} endpoint_a).
  left. reflexivity.
Defined.

(** X9: the endpoints do not influence one another. If the worker behind
    one endpoint answers alike in two runs, the counters of that endpoint
    at the end are the same, whatever the workers behind the other
    endpoints do; and if its sequence returns a true value in every round,
    all its attempts are successes. *)
Theorem endpoints_are_independent :
  forall (WORKER_URLS : option str) (W W' : world) (i : interruption) (ip : str),
    In ip (tee_worker_addresses WORKER_URLS) ->
    (forall k, W k ip = W' k ip) ->
    lookup ip (snd (main WORKER_URLS W i)) = lookup ip (snd (main WORKER_URLS W' i))
    /\ ((forall k, truth (sequence_result W k ip) = true) ->
        let n := Z.of_nat (rounds_before i + last_round (point i) ip) in
        lookup ip (snd (main WORKER_URLS W i)) = Some (Stats n n 0)).
Proof.
  intros WORKER_URLS W W' i ip Hin Hagree. split.
  - rewrite !main_lookup by assumption. rewrite !after_rounds_closed.
    now rewrite (successes_agree W W' ip 0 _ Hagree).
  - intros Hok n. rewrite main_lookup by assumption. rewrite after_rounds_closed.
    assert (S : forall m k, successes W ip k m = Z.of_nat m).
    { induction m as [|m IH]; intros k; [reflexivity|].
      cbn [successes]. rewrite Hok, IH. lia. }
    rewrite S. simpl. subst n. do 2 f_equal; lia.
Qed.

Lemma endpoints_are_independent_witness :
  lookup endpoint_a
    (snd (main two_endpoints world_all_good {| rounds_before := 2; point := AtSleep |}))
  = lookup endpoint_a
      (snd (main two_endpoints world_b_refuses {| rounds_before := 2; point := AtSleep |}))
  /\ lookup endpoint_a
       (snd (main two_endpoints world_all_good
                  {| rounds_before := 2; point := AtSleep |}))
     = Some (Stats 3 3 0).
Proof.
  assert (Hin : In endpoint_a (tee_worker_addresses two_endpoints))
    by (left; reflexivity).
  assert (Hagree : forall k, world_all_good k endpoint_a = world_b_refuses k endpoint_a)
    by (intros k; reflexivity).
  destruct (endpoints_are_independent two_endpoints world_all_good world_b_refuses
              {| rounds_before := 2; point := AtSleep |} endpoint_a Hin Hagree)
    as [H1 H2].
  split; [exact H1|].
  apply H2. intros k. reflexivity.
Defined.

(** ** The run as a whole *)

Lemma round_loop_lines (rounds : nat) (p : interrupt_point) (W : world)
    (clients : list (str * SimpleTelemetryClient)) (k : Z) (t : telemetry) :
  (forall c, In c clients -> known t (fst c)) ->
  fst (fst (round_loop rounds p W clients k t)) = round_lines k (S rounds).
Proof.
  revert k t. induction rounds as [|n IH]; intros k t Hk.
  - simpl round_loop. destruct p as [|finished|]; try reflexivity.
    + now destruct (gather _ t).
    + destruct (gather_round_returns clients (W (k + 1)) t Hk) as [t' [E _]].
      now rewrite E.
  - simpl round_loop.
    destruct (gather_round_returns clients (W (k + 1)) t Hk) as [t' [E [K _]]].
    rewrite E.
    specialize (IH (k + 1) t' (fun c Hc => K _ (Hk c Hc))).
    destruct (round_loop n p W clients (k + 1) t') as [[logs exit] t''].
    simpl in *. now rewrite IH.
Qed.

Lemma summary_of_consistent (t : telemetry) :
  all_consistent t ->
  summary t = (SummaryHeader :: flat_map summary_block t, Return tt).
Proof.
  unfold summary, all_consistent.
  induction 1 as [|[ip st] rest Hst Hrest IH]; [reflexivity|].
  simpl summary_items.
  destruct (success_rate_consistent st Hst) as [rate [percent [E1 E2]]].
  assert (R : rate_text st = percent).
  { unfold rate_text. rewrite E1. simpl. now rewrite E2. }
  rewrite E1, E2.
  destruct (summary_items rest) as [logs r].
  injection IH as -> ->.
  simpl flat_map. unfold summary_block at 1. simpl fst. simpl snd.
  now rewrite R.
Qed.

(** X10: whatever the workers answer, no exception other than the
    interrupt ends [main]: without an endpoint it returns at once; with a
    signal handled in its own statements it returns after the summary; with
    a signal handled while it is suspended it is not resumed. The counters
    it holds are consistent: none is negative and twitter_sequences =
    successful + failed for every endpoint. *)
Theorem main_never_crashes :
  forall (WORKER_URLS : option str) (W : world) (i : interruption),
    snd (fst (main WORKER_URLS W i))
    = match tee_worker_addresses WORKER_URLS, point i with
      | [], _ => Returned
      | _, InMain => Returned
      | _, _ => NotResumed KeyboardInterrupt
      end
    /\ all_consistent (snd (main WORKER_URLS W i)).
Proof.
  intros WORKER_URLS W i. unfold main.
  destruct (tee_worker_addresses WORKER_URLS) as [|a l].
  { split; [reflexivity | constructor]. }
  destruct (main_round_loop (a :: l) W i) as [logs [t [E [_ C]]]].
  rewrite E.
  destruct (point i) as [|finished|]; simpl exit_at; cbv iota beta.
  - rewrite (summary_of_consistent t C). split; [reflexivity | exact C].
  - split; [reflexivity | exact C].
  - split; [reflexivity | exact C].
Qed.

(** X11: with consistent counters the summary is printed to its end and
    is the header followed, for each endpoint in the order of the dict, by
    five lines: the endpoint, its three counters as stored, and its success
    rate. *)
Theorem summary_lists_every_endpoint :
  forall t : telemetry,
    all_consistent t ->
    summary t = (SummaryHeader :: flat_map summary_block t, Return tt).
Proof. exact summary_of_consistent. Qed.

Lemma summary_lists_every_endpoint_witness :
  summary [(endpoint_a, Stats 3 1 2); (endpoint_b, Stats 0 0 0)]
  = ([SummaryHeader;
      Node endpoint_a; Attempted 3; Successful 1; FailedSequences 2;
      SuccessRate (lit "33.33");
      Node endpoint_b; Attempted 0; Successful 0; FailedSequences 0;
      SuccessRate (lit "0.00")], Return tt).
Proof.
  apply (summary_lists_every_endpoint
           [(endpoint_a, Stats 3 1 2); (endpoint_b, Stats 0 0 0)]).
  repeat constructor; simpl; lia.
Defined.

(** X12: a run that is stopped while [main] executes its own statements.
    With at least one endpoint configured, the script logs the endpoints,
    the start of the loop, one line for each round begun, the interruption,
    and the summary of the counters reached; then it closes the event
    loop. *)
Theorem stopped_in_main_logs_summary :
  forall (WORKER_URLS : option str) (W : world) (n : nat),
    tee_worker_addresses WORKER_URLS <> [] ->
    let i := {| rounds_before := n; point := InMain |} in
    script WORKER_URLS W i
    = (UsingWorkerUrls (tee_worker_addresses WORKER_URLS) :: LoopStarting
         :: round_lines 0 (S n)
         ++ LoopInterrupted :: SummaryHeader
         :: flat_map summary_block (snd (main WORKER_URLS W i)),
       true).
Proof.
  intros WORKER_URLS W n Hne i.
  unfold script, main.
  destruct (tee_worker_addresses WORKER_URLS) as [|a l] eqn:Ea; [congruence|].
  assert (L : fst (fst (round_loop n InMain W (make_clients (a :: l)) 0
                          (initial_telemetry (a :: l))))
              = round_lines 0 (S n)).
  { apply round_loop_lines. intros c Hc.
    apply initial_telemetry_known. now apply make_clients_addresses. }
  destruct (main_round_loop (a :: l) W i) as [logs [t [E [_ C]]]].
  subst i. cbn [rounds_before point] in *.
  rewrite E in *. cbn [fst] in L. rewrite <- L.
  cbn [exit_at]. cbv iota beta.
  rewrite (summary_of_consistent t C). reflexivity.
Qed.

Lemma stopped_in_main_logs_summary_witness :
  script (Some endpoint_a) world_all_good {| rounds_before := 1; point := InMain |}
  = ([UsingWorkerUrls [endpoint_a]; LoopStarting; RunningRound 1; RunningRound 2;
      LoopInterrupted; SummaryHeader; Node endpoint_a; Attempted 1; Successful 1;
      FailedSequences 0; SuccessRate (lit "100.00")], true).
Proof.
  rewrite (stopped_in_main_logs_summary (Some endpoint_a) world_all_good 1);
    [reflexivity | discriminate].
Defined.

(** ** The success rate, continued *)

(** A number divided by itself is the [float] one. *)
Lemma div_self (p : positive) :
  Float64.div (Float64.of_int (Zpos p)) (Float64.of_int (Zpos p))
  = S754_finite false 4503599627370496 (-52).
Proof.
  unfold Float64.div, Float64.of_int, SFdiv.
  assert (C : SFdiv_core_binary Float64.prec Float64.emax (Zpos p) 0 (Zpos p) 0
              = (9007199254740992, -53, loc_Exact)).
  { unfold SFdiv_core_binary. simpl Zdigits2.
    replace (Zpos (digits2_pos p) + 0 - (Zpos (digits2_pos p) + 0)) with 0 by lia.
    change (Z.min (fexp Float64.prec Float64.emax 0) (0 - 0)) with (-53).
    change (0 - 0 - -53) with 53. cbv iota.
    rewrite Z.shiftl_mul_pow2 by lia.
    change (2 ^ 53) with 9007199254740992.
    pose proof (Z_div_mod (Zpos p * 9007199254740992) (Zpos p) ltac:(lia)) as H.
    destruct (Z.div_eucl (Zpos p * 9007199254740992) (Zpos p)) as [q r].
    destruct H as [Heq Hr].
    assert (Hq : q = 9007199254740992) by nia.
    assert (Hr0 : r = 0) by nia.
    subst q r. unfold new_location.
    destruct (Z.even (Zpos p)); reflexivity. }
  rewrite C. reflexivity.
Qed.

(** X13: the success rate of an endpoint that succeeded at every attempt
    is printed as 100.00, and that of an endpoint that failed at every
    attempt as 0.00, whatever the number of attempts. *)
Theorem rate_of_all_or_nothing :
  forall n : Z,
    0 < n ->
    (rate <- success_rate (Stats n n 0) ;; format_rate rate) = Return (lit "100.00")
    /\ (rate <- success_rate (Stats n 0 n) ;; format_rate rate) = Return (lit "0.00").
Proof.
  intros n Hn. destruct n as [|p|p]; try lia.
  unfold success_rate, truediv. simpl twitter_sequences. simpl successful.
  change (Zpos p >? 0) with true. change (Zpos p =? 0) with false. cbv iota.
  rewrite div_self. split; reflexivity.
Qed.

Lemma rate_of_all_or_nothing_witness :
  (rate <- success_rate (Stats 7 7 0) ;; format_rate rate) = Return (lit "100.00")
  /\ (rate <- success_rate (Stats 7 0 7) ;; format_rate rate) = Return (lit "0.00").
Proof. apply (rate_of_all_or_nothing 7). lia. Defined.

(** ** Configuration, continued *)

Lemma lstrip_whitespace (s : str) :
  (forall c, In c s -> isspace c = true) -> lstrip s = [].
Proof.
  induction s as [|x t IH]; simpl; intros H; [reflexivity|].
  rewrite (H x (or_introl eq_refl)). apply IH. intros c Hc. apply H. now right.
Qed.

Lemma strip_whitespace (s : str) :
  (forall c, In c s -> isspace c = true) -> strip s = [].
Proof.
  intros H. unfold strip. now rewrite (lstrip_whitespace s H).
Qed.

Lemma filter_none {A} (f : A -> bool) (l : list A) :
  (forall x, In x l -> f x = false) -> filter f l = [].
Proof.
  induction l as [|x t IH]; simpl; intros H; [reflexivity|].
  rewrite (H x (or_introl eq_refl)). apply IH. intros y Hy. apply H. now right.
Qed.

Lemma no_address_in_blank (u : str) :
  (forall c, In c u -> isspace c = true \/ c = comma) ->
  map strip (filter (fun url => truthy (strip url)) (split comma u)) = [].
Proof.
  intros H. rewrite filter_none; [reflexivity|].
  intros piece Hp. rewrite strip_whitespace; [reflexivity|].
  intros c Hc. destruct (In_split comma u piece c Hp Hc) as [Hin Hne].
  destruct (H c Hin); [assumption | contradiction].
Qed.

(** X14: a run without endpoints. When WORKER_URLS is not set, or holds
    nothing but whitespace and commas, the list of endpoints is empty;
    [main] then logs that no worker URL was provided and returns without
    starting a round, and the script closes the event loop. *)
Theorem no_endpoint_no_round :
  forall (W : world) (i : interruption) (config : str),
    (tee_worker_addresses None = []
     /\ script None W i = ([NoWorkerUrls], true))
    /\ ((forall c, In c config -> isspace c = true \/ c = comma) ->
        tee_worker_addresses (Some config) = []
        /\ main (Some config) W i = ([NoWorkerUrls], Returned, [])
        /\ script (Some config) W i = ([NoWorkerUrls], true)).
Proof.
  intros W i config. split; [split; reflexivity|].
  intros H.
  assert (E : tee_worker_addresses (Some config) = []).
  { unfold tee_worker_addresses.
    assert (Hr : forall c, In c (replace space [] config) ->
                           isspace c = true \/ c = comma).
    { intros c Hc. rewrite replace_empty_is_filter in Hc.
      apply filter_In in Hc. apply H, Hc. }
    destruct (startswith quote (replace space [] config)
              && endswith quote (replace space [] config)).
    - apply no_address_in_blank. intros c Hc. apply Hr. eapply In_slice, Hc.
    - now apply no_address_in_blank. }
  split; [exact E|].
  unfold script, main. rewrite E. split; reflexivity.
Qed.

Lemma no_endpoint_no_round_witness :
  tee_worker_addresses (Some (lit " , ,,  ")) = []
  /\ script (Some (lit " , ,,  ")) world_all_good
       {| rounds_before := 5; point := AtSleep |} = ([NoWorkerUrls], true).
Proof.
  assert (H : forall c, In c (lit " , ,,  ") -> isspace c = true \/ c = comma).
  { intros c Hc. vm_compute in Hc.
    repeat (destruct Hc as [<-|Hc]; [vm_compute; tauto|]). destruct Hc. }
  destruct (proj2 (no_endpoint_no_round world_all_good
                     {| rounds_before := 5; point := AtSleep |} (lit " , ,,  ")) H)
    as [E [_ S]].
  split; [exact E | exact S].
Defined.

Lemma lstrip_starts_clean (s : str) : starts_clean (lstrip s).
Proof.
  induction s as [|x t IH]; simpl; [exact I|].
  destruct (isspace x) eqn:E; [exact IH | exact E].
Qed.

Lemma lstrip_clean (s : str) : starts_clean s -> lstrip s = s.
Proof. destruct s as [|x t]; simpl; [reflexivity|]. now intros ->. Qed.

(** What [lstrip] removes is a prefix. *)
Lemma lstrip_suffix (s : str) : exists ws, s = ws ++ lstrip s.
Proof.
  induction s as [|x t [ws IH]]; simpl.
  - now exists [].
  - destruct (isspace x); [|now exists []].
    exists (x :: ws). simpl. now rewrite <- IH.
Qed.

Lemma strip_ends_clean (s : str) :
  starts_clean (strip s) /\ starts_clean (rev (strip s)).
Proof.
  unfold strip. rewrite rev_involutive.
  split; [|apply lstrip_starts_clean].
  pose proof (lstrip_starts_clean s) as Ha.
  destruct (lstrip_suffix (rev (lstrip s))) as [ws Hws].
  set (b := lstrip (rev (lstrip s))) in *.
  assert (E : lstrip s = rev b ++ rev ws).
  { rewrite <- (rev_involutive (lstrip s)), Hws. apply rev_app_distr. }
  destruct (rev b) as [|x t] eqn:Eb; [exact I|].
  rewrite E in Ha. exact Ha.
Qed.

Lemma strip_idempotent (s : str) : strip (strip s) = strip s.
Proof.
  destruct (strip_ends_clean s) as [H1 H2].
  unfold strip at 1.
  rewrite (lstrip_clean _ H1), (lstrip_clean _ H2). apply rev_involutive.
Qed.

(** X15: every endpoint read from the configuration is trimmed and not
    empty: it neither starts nor ends with a whitespace character, and
    trimming it again changes nothing. *)
Theorem parsed_endpoints_are_trimmed :
  forall (WORKER_URLS : option str) (url : str),
    In url (tee_worker_addresses WORKER_URLS) ->
    url <> []
    /\ strip url = url
    /\ isspace (hd space url) = false
    /\ isspace (last url space) = false.
Proof.
  intros WORKER_URLS url Hin.
  unfold tee_worker_addresses in Hin.
  apply in_map_iff in Hin. destruct Hin as [piece [<- Hp]].
  apply filter_In in Hp. destruct Hp as [_ Ht].
  assert (Hne : strip piece <> []) by (destruct (strip piece); [discriminate | congruence]).
  destruct (strip_ends_clean piece) as [H1 H2].
  split; [exact Hne|]. split; [apply strip_idempotent|]. split.
  - destruct (strip piece) as [|x t]; [congruence | exact H1].
  - destruct (exists_last Hne) as [l' [a E]]. rewrite E in *.
    rewrite last_last. rewrite rev_app_distr in H2. exact H2.
Qed.

Lemma parsed_endpoints_are_trimmed_witness :
  In endpoint_b (tee_worker_addresses (Some (lit "  http://a:8080 , http://b:8080 ")))
  /\ strip endpoint_b = endpoint_b.
Proof.
  assert (H : In endpoint_b
                (tee_worker_addresses (Some (lit "  http://a:8080 , http://b:8080 "))))
    by (right; left; reflexivity).
  split; [exact H|].
  exact (proj1 (proj2 (parsed_endpoints_are_trimmed _ endpoint_b H))).
Defined.

(** ** Signature clean-up, continued *)

Lemma without_backslashes_idempotent (s : str) :
  without_backslashes (without_backslashes s) = without_backslashes s.
Proof.
  unfold without_backslashes.
  induction s as [|x t IH]; simpl; [reflexivity|].
  destruct (negb (N.eqb x backslash)) eqn:E; simpl; rewrite ?E, IH; reflexivity.
Qed.

Lemma without_backslashes_length (s : str) :
  (List.length (without_backslashes s) <= List.length s)%nat.
Proof. apply filter_length_le. Qed.

Lemma removelast_length {A} (l : list A) :
  (List.length (removelast l) <= List.length l)%nat.
Proof.
  induction l as [|x [|y t] IH]; simpl in *; lia.
Qed.

Lemma In_removelast {A} (l : list A) (x : A) : In x (removelast l) -> In x l.
Proof.
  induction l as [|y [|z t] IH]; simpl; [tauto | tauto |].
  intros [H|H]; [now left | right; now apply IH].
Qed.

(** X16: what sanitization keeps. The sanitized string is never longer
    than the signature and holds only characters of the signature, none of
    them a backslash. Sanitizing a second time changes nothing exactly when
    the sanitized string is not itself wrapped in double quotes: each
    application strips one pair. *)
Theorem sanitize_twice :
  forall s : str,
    (List.length (sanitize s) <= List.length s)%nat
    /\ (forall c, In c (sanitize s) -> In c s /\ c <> backslash)
    /\ (sanitize (sanitize s) = sanitize s <->
        startswith quote (sanitize s) && endswith quote (sanitize s) = false).
Proof.
  intros s.
  assert (Hlen : (List.length (sanitize s) <= List.length s)%nat).
  { rewrite sanitize_cases.
    destruct (startswith quote s && endswith quote s).
    - etransitivity; [apply without_backslashes_length|].
      etransitivity; [apply removelast_length|].
      destruct s; simpl; lia.
    - apply without_backslashes_length. }
  assert (Hin : forall c, In c (sanitize s) -> In c s /\ c <> backslash).
  { intros c. rewrite sanitize_cases.
    destruct (startswith quote s && endswith quote s);
      unfold without_backslashes; intros H; apply filter_In in H;
      destruct H as [H Hb].
    - split.
      + apply In_removelast in H. destruct s; [destruct H | now right].
      + intros ->. now rewrite N.eqb_refl in Hb.
    - split; [exact H|]. intros ->. now rewrite N.eqb_refl in Hb. }
  split; [exact Hlen|]. split; [exact Hin|].
  assert (Hfix : without_backslashes (sanitize s) = sanitize s).
  { rewrite sanitize_cases.
    destruct (startswith quote s && endswith quote s);
      apply without_backslashes_idempotent. }
  set (y := sanitize s) in *.
  rewrite (sanitize_cases y).
  destruct (startswith quote y && endswith quote y) eqn:E.
  - split; [|discriminate]. intros H. exfalso.
    assert (Hy : y <> []) by (intros Hy; rewrite Hy in E; discriminate).
    assert (L : (List.length (without_backslashes (removelast (tl y)))
                 < List.length y)%nat).
    { eapply Nat.le_lt_trans; [apply without_backslashes_length|].
      eapply Nat.le_lt_trans; [apply removelast_length|].
      destruct y; [congruence | simpl; lia]. }
    rewrite H in L. lia.
  - split; [reflexivity | intros _; exact Hfix].
Qed.

Lemma sanitize_twice_witness :
  In 97%N (sanitize (quoted "a\b"))
  /\ In 97%N (quoted "a\b") /\ 97%N <> backslash.
Proof.
  assert (H : In 97%N (sanitize (quoted "a\b"))) by (left; reflexivity).
  split; [exact H|].
  exact (proj1 (proj2 (sanitize_twice (quoted "a\b"))) 97%N H).
Defined.
